(** * BlueALSA D-Bus glue (src/bluealsa.c): registry enumeration, transport
    registration on the bus, and the global configuration.

    The C functions are embedded as functions over an explicit program
    state.  Objects reached through pointers ([struct ba_transport *]) live
    in a store indexed by address, so that the registry's hash tables and
    the callers of the registration functions share them.  Dereferencing an
    address that holds no object has no meaning in C; here it yields
    [None].  The D-Bus connection of GLib is an external collaborator: it is
    modelled by the objects it currently exports and by the log of the
    calls made on it. *)

From stdpp Require Import base option list gmap strings.
From Stdlib Require Import ZArith.

Set Warnings "-register-all".

Local Open Scope Z_scope.
Local Open Scope string_scope.
Local Open Scope list_scope.

(** ** GVariant values built by the file *)

Inductive GVariant :=
  | GV_object_path (p : string)          (* "o" *)
  | GV_dict_entry (k v : GVariant)       (* "{..}" *)
  | GV_array (items : list GVariant)     (* "a..", NULL gives the empty one *)
  | GV_tuple (items : list GVariant).    (* "(..)" *)

(** ** The D-Bus connection (GLib, external) *)

Module GDBus.

(** One entry per call the program makes on the connection, in order. *)
Inductive call :=
  | RegisterObject (path : string) (id : Z)
  | UnregisterObject (id : Z) (found : bool)
  | EmitSignal (object_path iface name : string) (params : GVariant)
  | ReturnValue (value : GVariant).

Record GDBusConnection := {
  exported : list (Z * string);   (* registration id, object path *)
  next_id : positive;             (* registration id counter *)
  calls : list call
}.

Definition log (conn : GDBusConnection) (c : call) : GDBusConnection :=
  {| exported := exported conn; next_id := next_id conn;
     calls := calls conn ++ [c] |}.

(** Registration ids are [guint]: a successful registration returns an id
    in [1 .. 2^32-1]; 0 reports a failure.  The connection refuses a path
    which is already exported for the interface, and an exhausted id
    space. *)
Definition g_dbus_connection_register_object
    (conn : GDBusConnection) (path : string) : Z * GDBusConnection :=
  if bool_decide (path ∈ (exported conn).*2) then
    (0, log conn (RegisterObject path 0))
  else if bool_decide (2 ^ 32 <= Z.pos (next_id conn)) then
    (0, log conn (RegisterObject path 0))
  else
    let id := Z.pos (next_id conn) in
    (id, {| exported := (id, path) :: exported conn;
            next_id := Pos.succ (next_id conn);
            calls := calls conn ++ [RegisterObject path id] |}).

(** Returns TRUE when an object was exported under [id]. *)
Definition g_dbus_connection_unregister_object
    (conn : GDBusConnection) (id : Z) : bool * GDBusConnection :=
  let found := bool_decide (id ∈ (exported conn).*1) in
  (found, {| exported := filter (λ e, e.1 ≠ id) (exported conn);
             next_id := next_id conn;
             calls := calls conn ++ [UnregisterObject id found] |}).

Definition g_dbus_connection_emit_signal (conn : GDBusConnection)
    (object_path iface name : string) (params : GVariant)
    : bool * GDBusConnection :=
  (true, log conn (EmitSignal object_path iface name params)).

Definition g_dbus_method_invocation_return_value
    (conn : GDBusConnection) (value : GVariant) : GDBusConnection :=
  log conn (ReturnValue value).

(** Ids handed out so far are non-zero and below the counter. *)
Definition wf (conn : GDBusConnection) : Prop :=
  Forall (λ e, 0 < e.1 < Z.pos (next_id conn)) (exported conn).

(** The signals with a given member name among a list of calls. *)
Definition is_signal (name : string) (c : call) : bool :=
  match c with
  | EmitSignal _ _ n _ => bool_decide (n = name)
  | _ => false
  end.

Definition signals_named (name : string) (cs : list call) : list call :=
  List.filter (is_signal name) cs.

End GDBus.
Export GDBus.

(** ** Registry data (ba-transport.h, ba-device.h, ba-adapter.h) *)

Definition loc := nat.

(** The fields of [struct ba_transport] the file reads or writes. *)
Record ba_transport := {
  profile : Z;            (* type.profile *)
  ba_dbus_path : string;
  ba_dbus_id : Z          (* guint *)
}.

(** A GHashTable is kept as its entries in iteration order. *)
Definition GHashTable (K V : Type) := list (K * V).

Record ba_device := { transports : GHashTable string loc }.
Record ba_adapter := { devices : GHashTable string ba_device }.

Record state := {
  heap : gmap loc ba_transport;     (* the transport objects, by address *)
  adapters : gmap nat ba_adapter;   (* the adapters known to the registry *)
  dbus : GDBusConnection            (* config.dbus *)
}.

(** Modelled from the spec: ba_adapter_lookup (ba-adapter.c) is a lookup by
    adapter index, absent if the adapter was never created or was already
    removed. *)
Definition ba_adapter_lookup (s : state) (i : nat) : option ba_adapter :=
  adapters s !! i.

(** Conversion of a [guint] to the [int] the C function returns. *)
Definition to_int (u : Z) : Z :=
  let w := u mod 2 ^ 32 in if bool_decide (w < 2 ^ 31) then w else w - 2 ^ 32.

Section Bluealsa.

(** Constants of headers outside this file. *)
Variable HCI_MAX_DEV : nat.
Variable BA_TRANSPORT_PROFILE_RFCOMM : Z.
Variable BLUEALSA_IFACE_MANAGER : string.

(** *** bluealsa_manager_method_call *)

Definition g_variant_builder_add (pcms : list GVariant) (path : string)
    : list GVariant :=
  pcms ++ [GV_dict_entry (GV_object_path path) (GV_array [])].

(** The loop over d->transports. *)
Fixpoint iter_transports (h : gmap loc ba_transport)
    (ts : GHashTable string loc) (pcms : list GVariant)
    : option (list GVariant) :=
  match ts with
  | [] => Some pcms
  | (_, p) :: rest =>
      t ← h !! p;
      if bool_decide (Z.land (profile t) BA_TRANSPORT_PROFILE_RFCOMM ≠ 0)
      then iter_transports h rest pcms
      else iter_transports h rest (g_variant_builder_add pcms (ba_dbus_path t))
  end.

(** The loop over a->devices. *)
Fixpoint iter_devices (h : gmap loc ba_transport)
    (ds : GHashTable string ba_device) (pcms : list GVariant)
    : option (list GVariant) :=
  match ds with
  | [] => Some pcms
  | (_, d) :: rest =>
      pcms' ← iter_transports h (transports d) pcms;
      iter_devices h rest pcms'
  end.

(** The loop over the adapter indexes. *)
Fixpoint iter_adapters (s : state) (idx : list nat) (pcms : list GVariant)
    : option (list GVariant) :=
  match idx with
  | [] => Some pcms
  | i :: rest =>
      match ba_adapter_lookup s i with
      | None => iter_adapters s rest pcms
      | Some a =>
          pcms' ← iter_devices (heap s) (devices a) pcms;
          iter_adapters s rest pcms'
      end
  end.

(** The result carries the value handed to
    g_dbus_method_invocation_return_value, which is the caller's reply.  The
    arguments are unused by the C function but for the debug message, which
    is left out. *)
Definition bluealsa_manager_method_call (s : state)
    (sender path interface method : string) : option (GVariant * state) :=
  pcms ← iter_adapters s (seq 0 HCI_MAX_DEV) [];
  let reply := GV_tuple [GV_array pcms] in
  Some (reply,
        {| heap := heap s; adapters := adapters s;
           dbus := g_dbus_method_invocation_return_value (dbus s) reply |}).

(** *** bluealsa_dbus_register_transport *)

Definition bluealsa_dbus_register_transport (s : state) (transport : loc)
    : option (Z * state) :=
  t ← heap s !! transport;
  let '(id, conn1) :=
    g_dbus_connection_register_object (dbus s) (ba_dbus_path t) in
  let t' := {| profile := profile t; ba_dbus_path := ba_dbus_path t;
               ba_dbus_id := id |} in
  let conn2 :=
    (g_dbus_connection_emit_signal conn1 "/org/bluealsa"
       BLUEALSA_IFACE_MANAGER "PCMAdded"
       (GV_tuple [GV_object_path (ba_dbus_path t'); GV_array []])).2 in
  Some (to_int (ba_dbus_id t'),
        {| heap := <[transport := t']> (heap s); adapters := adapters s;
           dbus := conn2 |}).

(** *** bluealsa_dbus_unregister_transport *)

Definition bluealsa_dbus_unregister_transport (s : state) (transport : loc)
    : option state :=
  t ← heap s !! transport;
  if bool_decide (ba_dbus_id t ≠ 0) then
    let conn1 :=
      (g_dbus_connection_unregister_object (dbus s) (ba_dbus_id t)).2 in
    let conn2 :=
      (g_dbus_connection_emit_signal conn1 "/org/bluealsa"
         BLUEALSA_IFACE_MANAGER "PCMRemoved"
         (GV_tuple [GV_object_path (ba_dbus_path t)])).2 in
    Some {| heap := heap s; adapters := adapters s; dbus := conn2 |}
  else Some s.

End Bluealsa.

(** *** bluealsa_transport_get_property *)

Inductive GQuark := G_DBUS_ERROR | G_IO_ERROR.
Inductive GDBusError :=
  | G_DBUS_ERROR_FAILED
  | G_DBUS_ERROR_INVALID_ARGS
  | G_DBUS_ERROR_UNKNOWN_PROPERTY.

Record GError := {
  domain : GQuark;
  code : GDBusError;
  message : string
}.

(** The pair is the returned [GVariant *] ([None] for NULL) and the error
    stored through [error]. *)
Definition bluealsa_transport_get_property (conn : GDBusConnection)
    (sender path interface property : string) (userdata : loc)
    : option GVariant * GError :=
  let error := {| domain := G_DBUS_ERROR; code := G_DBUS_ERROR_INVALID_ARGS;
                  message := "No such property '" +:+ property +:+ "'" |} in
  (None, error).

(** ** The global configuration *)

Inductive codec_table := no_codecs | bluez_a2dp_codecs.

(** The members of [struct ba_config] named in this file, the HFP feature
    masks apart (they are built from constants of hfp.h and no function
    here reads them). *)
Record ba_config := {
  enable_a2dp_source : bool;
  enable_hfp_ag : bool;
  enable_hsp_ag : bool;
  null_fd : Z;
  gid_audio : Z;
  a2dp_volume : bool;
  a2dp_force_mono : bool;
  a2dp_force_44100 : bool;
  a2dp_keep_alive : Z;
  hci_filter : option (list string);   (* GArray *, NULL before init *)
  main_thread : option Z;              (* pthread_t *)
  a2dp_codecs : codec_table
}.

(** The static initializer of [config]. *)
Definition config : ba_config := {|
  enable_a2dp_source := true;
  enable_hfp_ag := true;
  enable_hsp_ag := true;
  null_fd := -1;
  gid_audio := -1;
  a2dp_volume := false;
  a2dp_force_mono := false;
  a2dp_force_44100 := false;
  a2dp_keep_alive := 0;
  hci_filter := None;
  main_thread := None;
  a2dp_codecs := no_codecs
|}.

(** What the operating system answers to the calls of the initialisation. *)
Record host := {
  sys_open : string → Z;             (* a descriptor, or -1 on failure *)
  getgrnam : string → option Z;      (* gr_gid of the group, None for NULL *)
  pthread_self : Z
}.

Definition bluealsa_config_init (h : host) (c : ba_config) : Z * ba_config :=
  let hci_filter' := Some [] in
  let main_thread' := Some (pthread_self h) in
  let null_fd' := sys_open h "/dev/null" in
  let gid_audio' :=
    match getgrnam h "audio" with
    | Some gr_gid => gr_gid
    | None => gid_audio c
    end in
  let a2dp_codecs' := bluez_a2dp_codecs in
  (0, {| enable_a2dp_source := enable_a2dp_source c;
         enable_hfp_ag := enable_hfp_ag c;
         enable_hsp_ag := enable_hsp_ag c;
         null_fd := null_fd';
         gid_audio := gid_audio';
         a2dp_volume := a2dp_volume c;
         a2dp_force_mono := a2dp_force_mono c;
         a2dp_force_44100 := a2dp_force_44100 c;
         a2dp_keep_alive := a2dp_keep_alive c;
         hci_filter := hci_filter';
         main_thread := main_thread';
         a2dp_codecs := a2dp_codecs' |}).

(** ** Sequences of registrations and unregistrations of one transport *)

Inductive op := Expose | Retract.

Definition step (iface : string) (s : state) (t : loc) (o : op)
    : option state :=
  match o with
  | Expose => snd <$> bluealsa_dbus_register_transport iface s t
  | Retract => bluealsa_dbus_unregister_transport iface s t
  end.

Fixpoint run (iface : string) (s : state) (t : loc) (ops : list op)
    : option state :=
  match ops with
  | [] => Some s
  | o :: rest => s' ← step iface s t o; run iface s' t rest
  end.

(** ** Vocabulary of the statements *)

(** The handle of the transport at address [t]. *)
Definition handle (s : state) (t : loc) : option Z :=
  ba_dbus_id <$> heap s !! t.

(** The connection exports the transport's path under the transport's
    handle. *)
Definition bound (s : state) (t : loc) : Prop :=
  match heap s !! t with
  | Some tr => (ba_dbus_id tr, ba_dbus_path tr) ∈ exported (dbus s)
  | None => False
  end.

(** The two signals of the manager interface, as the file emits them. *)
Definition pcm_added (iface p : string) : GDBus.call :=
  EmitSignal "/org/bluealsa" iface "PCMAdded"
    (GV_tuple [GV_object_path p; GV_array []]).

Definition pcm_removed (iface p : string) : GDBus.call :=
  EmitSignal "/org/bluealsa" iface "PCMRemoved" (GV_tuple [GV_object_path p]).

(** The profile classifier marks the transport as control-only. *)
Definition control_only (rfcomm : Z) (t : ba_transport) : Prop :=
  Z.land (profile t) rfcomm ≠ 0.

(** The transports reachable from the registry, in iteration order. *)
Definition adapter_transports (a : ba_adapter) : list loc :=
  d ← devices a; (transports d.2).*2.

Definition indexed_transports (s : state) (idx : list nat) : list loc :=
  i ← idx; a ← option_list (ba_adapter_lookup s i); adapter_transports a.

Definition registry_transports (max_dev : nat) (s : state) : list loc :=
  indexed_transports s (seq 0 max_dev).

(** Every transport of the registry is a live object. *)
Definition registry_wf (max_dev : nat) (s : state) : Prop :=
  Forall (λ l, is_Some (heap s !! l)) (registry_transports max_dev s).

(** The audio-bearing transports among the addresses [ls]. *)
Definition audio_transports (rfcomm : Z) (h : gmap loc ba_transport)
    (ls : list loc) : list ba_transport :=
  filter (λ t, ¬ control_only rfcomm t) (omap (h !!.) ls).

Definition pcm_entry (t : ba_transport) : GVariant :=
  GV_dict_entry (GV_object_path (ba_dbus_path t)) (GV_array []).

(** The object paths listed in a reply of the manager. *)
Definition entry_path (e : GVariant) : option string :=
  match e with
  | GV_dict_entry (GV_object_path p) _ => Some p
  | _ => None
  end.

Definition reply_paths (reply : GVariant) : list string :=
  match reply with
  | GV_tuple [GV_array items] => omap entry_path items
  | _ => []
  end.

(** Two registries hold the same adapters, devices and transports, their
    hash tables possibly iterating in different orders. *)
Definition same_device (x y : string * ba_device) : Prop :=
  x.1 = y.1 ∧ transports x.2 ≡ₚ transports y.2.

Definition same_adapter (a a' : ba_adapter) : Prop :=
  ∃ ds, devices a ≡ₚ ds ∧ Forall2 same_device ds (devices a').

Definition same_contents (s s' : state) : Prop :=
  heap s = heap s' ∧
  ∀ i, option_Forall2 same_adapter (adapters s !! i) (adapters s' !! i).

(** ** A concrete registry

    Adapter 0 has the device AA:BB:CC:DD:EE:FF with an A2DP sink transport
    and an RFCOMM transport; nothing is exported yet.  The constants are the
    values the headers are expected to give. *)

Definition demo_iface : string := "org.bluealsa.Manager1".
Definition demo_max_dev : nat := 16.
Definition demo_rfcomm_bit : Z := 64.

Definition demo_sink : ba_transport :=
  {| profile := 2;
     ba_dbus_path := "/org/bluealsa/hci0/dev_AA_BB_CC_DD_EE_FF/a2dp";
     ba_dbus_id := 0 |}.

Definition demo_rfcomm : ba_transport :=
  {| profile := 64;
     ba_dbus_path := "/org/bluealsa/hci0/dev_AA_BB_CC_DD_EE_FF/rfcomm";
     ba_dbus_id := 0 |}.

Definition demo_registry (ts : GHashTable string loc) : state :=
  {| heap := {[ 1%nat := demo_sink; 2%nat := demo_rfcomm ]};
     adapters :=
       {[ 0%nat := {| devices :=
                        [("AA:BB:CC:DD:EE:FF", {| transports := ts |})] |} ]};
     dbus := {| exported := []; next_id := 1; calls := [] |} |}.

Definition demo_state : state :=
  demo_registry [("a2dp", 1%nat); ("rfcomm", 2%nat)].

(** The same registry, the device's table iterating the other way round. *)
Definition demo_state_swapped : state :=
  demo_registry [("rfcomm", 2%nat); ("a2dp", 1%nat)].

(** A host without /dev/null and without the group "audio". *)
Definition demo_bare_host : host :=
  {| sys_open := λ _, -1; getgrnam := λ _, None; pthread_self := 1 |}.

(** ** Sequences of operations over several transports *)

Global Instance op_eq_dec : EqDecision op.
Proof. solve_decision. Defined.

Fixpoint run_many (iface : string) (s : state) (ops : list (op * loc))
    : option state :=
  match ops with
  | [] => Some s
  | (o, t) :: rest => s' ← step iface s t o; run_many iface s' rest
  end.

(** What the enumeration reads of a transport. *)
Definition identity (t : ba_transport) : Z * string :=
  (profile t, ba_dbus_path t).

(** The number of [o] operations in a sequence. *)
Definition count_op (o : op) (ops : list (op * loc)) : nat :=
  length (filter (λ x, x.1 = o) ops).

(** The concrete registry once its sink transport is exported. *)
Definition demo_exposed : state :=
  {| heap := {[ 1%nat := {| profile := 2;
                            ba_dbus_path := ba_dbus_path demo_sink;
                            ba_dbus_id := 1 |};
                2%nat := demo_rfcomm ]};
     adapters := adapters demo_state;
     dbus := {| exported := [(1, ba_dbus_path demo_sink)]; next_id := 2;
                calls := [RegisterObject (ba_dbus_path demo_sink) 1;
                          pcm_added demo_iface (ba_dbus_path demo_sink)] |} |}.

(** The concrete registry with one more adapter, beyond the index bound. *)
Definition demo_far_adapter : state :=
  {| heap := heap demo_state;
     adapters :=
       <[ 16%nat := {| devices :=
                         [("11:22:33:44:55:66",
                           {| transports := [("a2dp", 1%nat)] |})] |} ]>
         (adapters demo_state);
     dbus := dbus demo_state |}.

(** Two transport objects which resolve to the same path. *)
Definition demo_twins : state :=
  {| heap := {[ 1%nat := demo_sink; 3%nat := demo_sink ]};
     adapters := ∅;
     dbus := {| exported := []; next_id := 1; calls := [] |} |}.

(** ** Enumeration: the loops compute the filtered list of paths *)

Section Enumeration.

Variable HCI_MAX_DEV : nat.
Variable RFCOMM : Z.

Abbreviation valid h := (λ l : loc, is_Some (h !! l)).

Lemma audio_transports_nil h : audio_transports RFCOMM h [] = [].
Proof. reflexivity. Qed.

Lemma audio_transports_app h ls1 ls2 :
  audio_transports RFCOMM h (ls1 ++ ls2) =
  audio_transports RFCOMM h ls1 ++ audio_transports RFCOMM h ls2.
Proof. unfold audio_transports. by rewrite omap_app, filter_app. Qed.

Lemma audio_transports_cons h l ls t :
  h !! l = Some t →
  audio_transports RFCOMM h (l :: ls) =
  (if bool_decide (Z.land (profile t) RFCOMM ≠ 0) then []
   else [t]) ++ audio_transports RFCOMM h ls.
Proof.
  intros Hl. unfold audio_transports. simpl. rewrite Hl. simpl.
  case_bool_decide as Hc.
  - rewrite filter_cons_False; [done|]. unfold control_only. tauto.
  - rewrite filter_cons_True; [done|]. unfold control_only. tauto.
Qed.

Lemma audio_transports_not_control h ls :
  Forall (λ t, ¬ control_only RFCOMM t) (audio_transports RFCOMM h ls).
Proof.
  apply Forall_forall. intros t Ht.
  unfold audio_transports in Ht. by apply list_elem_of_filter in Ht as [? _].
Qed.

Lemma audio_transports_perm h ls1 ls2 :
  ls1 ≡ₚ ls2 → audio_transports RFCOMM h ls1 ≡ₚ audio_transports RFCOMM h ls2.
Proof. intros Hp. unfold audio_transports. by rewrite Hp. Qed.

Lemma iter_transports_total h ts pcms :
  Forall (valid h) ts.*2 →
  iter_transports RFCOMM h ts pcms =
  Some (pcms ++ (pcm_entry <$> audio_transports RFCOMM h ts.*2)).
Proof.
  revert pcms. induction ts as [|[k l] ts IH]; intros pcms Hv; simpl.
  - by rewrite app_nil_r.
  - apply Forall_cons in Hv as [[t Ht] Hv]. simpl in Ht. rewrite Ht. simpl.
    rewrite (audio_transports_cons _ _ _ _ Ht).
    case_bool_decide; rewrite IH by done; simpl; [done|].
    unfold g_variant_builder_add. by rewrite <- app_assoc.
Qed.

Lemma iter_transports_valid h ts pcms r :
  iter_transports RFCOMM h ts pcms = Some r → Forall (valid h) ts.*2.
Proof.
  revert pcms. induction ts as [|[k l] ts IH]; intros pcms Hr; simpl in *.
  - constructor.
  - destruct (h !! l) as [t|] eqn:Ht; simpl in Hr; [|done].
    constructor; [by eexists|].
    case_bool_decide; eauto.
Qed.

Lemma iter_devices_total h ds pcms :
  Forall (valid h) (adapter_transports {| devices := ds |}) →
  iter_devices RFCOMM h ds pcms =
  Some (pcms ++ (pcm_entry <$>
          audio_transports RFCOMM h (adapter_transports {| devices := ds |}))).
Proof.
  unfold adapter_transports. simpl.
  revert pcms. induction ds as [|[k d] ds IH]; intros pcms Hv; simpl.
  - by rewrite app_nil_r.
  - simpl in Hv. apply Forall_app in Hv as [Hd Hv].
    rewrite iter_transports_total by done. simpl.
    rewrite IH by done.
    by rewrite audio_transports_app, fmap_app, app_assoc.
Qed.

Lemma iter_devices_valid h ds pcms r :
  iter_devices RFCOMM h ds pcms = Some r →
  Forall (valid h) (adapter_transports {| devices := ds |}).
Proof.
  unfold adapter_transports. simpl.
  revert pcms. induction ds as [|[k d] ds IH]; intros pcms Hr; simpl in *.
  - constructor.
  - destruct (iter_transports RFCOMM h (transports d) pcms) as [p|] eqn:Ht;
      simpl in Hr; [|done].
    apply Forall_app. split; eauto using iter_transports_valid.
Qed.

Lemma indexed_transports_cons s i idx :
  indexed_transports s (i :: idx) =
  match ba_adapter_lookup s i with
  | Some a => adapter_transports a
  | None => []
  end ++ indexed_transports s idx.
Proof.
  unfold indexed_transports. simpl.
  destruct (ba_adapter_lookup s i); simpl; [|done]. by rewrite app_nil_r.
Qed.

Lemma iter_adapters_total s idx pcms :
  Forall (valid (heap s)) (indexed_transports s idx) →
  iter_adapters RFCOMM s idx pcms =
  Some (pcms ++ (pcm_entry <$>
          audio_transports RFCOMM (heap s) (indexed_transports s idx))).
Proof.
  revert pcms. induction idx as [|i idx IH]; intros pcms Hv.
  - simpl. by rewrite app_nil_r.
  - rewrite indexed_transports_cons in Hv |- *. simpl.
    apply Forall_app in Hv as [Ha Hv].
    destruct (ba_adapter_lookup s i) as [[ds]|].
    + rewrite iter_devices_total by done. simpl. rewrite IH by done.
      by rewrite audio_transports_app, fmap_app, app_assoc.
    + by rewrite IH.
Qed.

Lemma iter_adapters_valid s idx pcms r :
  iter_adapters RFCOMM s idx pcms = Some r →
  Forall (valid (heap s)) (indexed_transports s idx).
Proof.
  revert pcms. induction idx as [|i idx IH]; intros pcms Hr.
  - constructor.
  - rewrite indexed_transports_cons. simpl in Hr.
    destruct (ba_adapter_lookup s i) as [[ds]|]; simpl in *; [|by eauto].
    destruct (iter_devices RFCOMM (heap s) ds pcms) as [p|] eqn:Hd;
      simpl in Hr; [|done].
    apply Forall_app. split; eauto using iter_devices_valid.
Qed.

Lemma method_call_total s sender path interface method :
  registry_wf HCI_MAX_DEV s →
  bluealsa_manager_method_call HCI_MAX_DEV RFCOMM s sender path interface
    method =
  let reply :=
    GV_tuple [GV_array (pcm_entry <$>
      audio_transports RFCOMM (heap s) (registry_transports HCI_MAX_DEV s))]
  in
  Some (reply,
        {| heap := heap s; adapters := adapters s;
           dbus := g_dbus_method_invocation_return_value (dbus s) reply |}).
Proof.
  intros Hwf. unfold bluealsa_manager_method_call.
  rewrite iter_adapters_total by exact Hwf. reflexivity.
Qed.

Lemma method_call_wf s sender path interface method r :
  bluealsa_manager_method_call HCI_MAX_DEV RFCOMM s sender path interface
    method = Some r →
  registry_wf HCI_MAX_DEV s.
Proof.
  unfold bluealsa_manager_method_call. intros Hr.
  destruct (iter_adapters RFCOMM s (seq 0 HCI_MAX_DEV) []) eqn:Hi;
    simpl in Hr; [|done].
  by eapply iter_adapters_valid.
Qed.

Lemma reply_paths_entries ts :
  reply_paths (GV_tuple [GV_array (pcm_entry <$> ts)]) = ba_dbus_path <$> ts.
Proof.
  unfold reply_paths.
  induction ts as [|t ts IH]; [done|]. cbn. f_equal. exact IH.
Qed.

End Enumeration.

(** ** Iteration order does not change what is enumerated *)

Lemma same_adapter_transports a a' :
  same_adapter a a' → adapter_transports a ≡ₚ adapter_transports a'.
Proof.
  intros (ds & Hp & Hf). unfold adapter_transports. rewrite Hp. clear Hp.
  induction Hf as [|x y ds ds' [_ Hxy] _ IH]; [done|].
  simpl. by rewrite Hxy, IH.
Qed.

Lemma same_contents_indexed s s' idx :
  same_contents s s' → indexed_transports s idx ≡ₚ indexed_transports s' idx.
Proof.
  intros [_ Ha]. induction idx as [|i idx IH]; [done|].
  rewrite !indexed_transports_cons. unfold ba_adapter_lookup.
  destruct (Ha i) as [a a' Haa|]; [|done].
  by rewrite (same_adapter_transports _ _ Haa), IH.
Qed.

Lemma same_contents_refl s : same_contents s s.
Proof.
  split; [done|]. intros i. destruct (adapters s !! i) as [a|]; constructor.
  exists (devices a). split; [done|].
  induction (devices a); constructor; [by split|done].
Qed.

Lemma same_contents_wf max_dev s s' :
  same_contents s s' → registry_wf max_dev s → registry_wf max_dev s'.
Proof.
  intros Hs. unfold registry_wf, registry_transports.
  rewrite <- (same_contents_indexed _ _ _ Hs). by destruct Hs as [-> _].
Qed.

(** C4: on a registry whose transports are live objects the enumeration
    returns a reply, and every reply it returns is built from exactly the
    registry's transports whose profile has the RFCOMM bit clear, one entry
    each, in iteration order; no entry is made from a control-only
    transport, whatever the registry holds. *)
Theorem enumerate_excludes_control_only
    (HCI_MAX_DEV : nat) (RFCOMM : Z) (s : state)
    (sender path interface method : string) :
  (registry_wf HCI_MAX_DEV s →
   is_Some (bluealsa_manager_method_call HCI_MAX_DEV RFCOMM s sender path
              interface method)) ∧
  ∀ reply s',
    bluealsa_manager_method_call HCI_MAX_DEV RFCOMM s sender path interface
      method = Some (reply, s') →
    ∃ ts : list ba_transport,
      reply = GV_tuple [GV_array (pcm_entry <$> ts)] ∧
      reply_paths reply = ba_dbus_path <$> ts ∧
      ts = audio_transports RFCOMM (heap s)
             (registry_transports HCI_MAX_DEV s) ∧
      (∀ t, t ∈ ts → Z.land (profile t) RFCOMM = 0) ∧
      (∀ t, t ∈ ts ↔
            (∃ l, l ∈ registry_transports HCI_MAX_DEV s ∧
                  heap s !! l = Some t)
            ∧ ¬ control_only RFCOMM t).
Proof.
  split.
  { intros Hwf. rewrite method_call_total by done. by eexists. }
  intros reply s' Hcall.
  pose proof (method_call_wf _ _ _ _ _ _ _ _ Hcall) as Hwf.
  rewrite method_call_total in Hcall by done. simpl in Hcall.
  injection Hcall as <- _.
  eexists. split; [reflexivity|]. split; [apply reply_paths_entries|].
  split; [reflexivity|]. split.
  - intros t Ht. unfold audio_transports in Ht.
    apply list_elem_of_filter in Ht as [Hc _]. unfold control_only in Hc.
    destruct (decide (Z.land (profile t) RFCOMM = 0)); tauto.
  - intros t. unfold audio_transports.
    rewrite list_elem_of_filter, list_elem_of_omap. tauto.
Qed.

(** C9: two enumerations of a registry whose contents did not change list
    the same object paths, up to the order of the entries: the call leaves
    the registry as it was, a second call right after it gives the same
    reply, and a call on the same contents iterated in another order gives
    a permutation of the paths, so the same set of paths. *)
Theorem enumerate_twice_same_paths
    (HCI_MAX_DEV : nat) (RFCOMM : Z) (s s' : state)
    (sender path interface method : string)
    (sender' path' interface' method' : string) :
  registry_wf HCI_MAX_DEV s →
  same_contents s s' →
  ∃ r1 s1 r2 s2,
    bluealsa_manager_method_call HCI_MAX_DEV RFCOMM s sender path interface
      method = Some (r1, s1) ∧
    heap s1 = heap s ∧ adapters s1 = adapters s ∧
    (fst <$> bluealsa_manager_method_call HCI_MAX_DEV RFCOMM s1 sender' path'
               interface' method') = Some r1 ∧
    bluealsa_manager_method_call HCI_MAX_DEV RFCOMM s' sender' path'
      interface' method' = Some (r2, s2) ∧
    reply_paths r1 ≡ₚ reply_paths r2 ∧
    (∀ p, p ∈ reply_paths r1 ↔ p ∈ reply_paths r2).
Proof.
  intros Hwf Hsame.
  pose proof (same_contents_wf _ _ _ Hsame Hwf) as Hwf'.
  rewrite (method_call_total _ _ s) by done.
  rewrite (method_call_total _ _ s') by done.
  cbv zeta. do 4 eexists. split; [reflexivity|].
  split; [reflexivity|]. split; [reflexivity|]. split.
  { rewrite method_call_total by exact Hwf. reflexivity. }
  split; [reflexivity|].
  assert (reply_paths
            (GV_tuple [GV_array (pcm_entry <$> audio_transports RFCOMM (heap s)
               (registry_transports HCI_MAX_DEV s))]) ≡ₚ
          reply_paths
            (GV_tuple [GV_array (pcm_entry <$> audio_transports RFCOMM (heap s')
               (registry_transports HCI_MAX_DEV s'))])) as Hperm.
  { rewrite !reply_paths_entries. apply fmap_Permutation.
    destruct Hsame as [Hh Ha]. rewrite <- Hh.
    apply audio_transports_perm, same_contents_indexed. by split. }
  split; [exact Hperm|]. intros p. by rewrite Hperm.
Qed.

(** ** The connection *)

Lemma to_int_zero (u : Z) : 0 ≤ u < 2 ^ 32 → to_int u = 0 ↔ u = 0.
Proof.
  intros Hu. unfold to_int. rewrite Z.mod_small by done.
  case_bool_decide; lia.
Qed.

Lemma register_object_cases conn path :
  let r := g_dbus_connection_register_object conn path in
  0 ≤ r.1 < 2 ^ 32 ∧
  calls r.2 = calls conn ++ [RegisterObject path r.1] ∧
  (r.1 = 0 → exported r.2 = exported conn ∧ next_id r.2 = next_id conn) ∧
  (r.1 ≠ 0 → exported r.2 = (r.1, path) :: exported conn) ∧
  (GDBus.wf conn → GDBus.wf r.2).
Proof.
  unfold g_dbus_connection_register_object.
  repeat case_bool_decide; simpl; repeat split; try done; try lia.
  unfold GDBus.wf. simpl. intros Hwf. constructor; [simpl; lia|].
  eapply Forall_impl; [exact Hwf|]. simpl. intros; lia.
Qed.

Lemma unregister_object_cases conn id :
  let r := g_dbus_connection_unregister_object conn id in
  calls r.2 = calls conn ++ [UnregisterObject id r.1] ∧
  (∀ p, (id, p) ∉ exported r.2) ∧
  (GDBus.wf conn → GDBus.wf r.2).
Proof.
  unfold g_dbus_connection_unregister_object. simpl.
  split; [done|]. split.
  - intros p Hin. apply list_elem_of_filter in Hin as [Hne _]. by apply Hne.
  - unfold GDBus.wf. simpl. intros Hwf. apply Forall_forall. intros e He.
    apply list_elem_of_filter in He as [_ He].
    by eapply Forall_forall in Hwf.
Qed.

Lemma wf_no_zero conn p : GDBus.wf conn → (0, p) ∉ exported conn.
Proof.
  intros Hwf Hin. eapply Forall_forall in Hwf; [|exact Hin]. simpl in Hwf. lia.
Qed.

(** ** Registration and unregistration of a transport *)


Section Registration.

Variable IFACE : string.

Lemma register_transport_spec s t tr :
  heap s !! t = Some tr →
  ∃ id s',
    bluealsa_dbus_register_transport IFACE s t = Some (to_int id, s') ∧
    0 ≤ id < 2 ^ 32 ∧
    heap s' = <[t := {| profile := profile tr;
                        ba_dbus_path := ba_dbus_path tr;
                        ba_dbus_id := id |}]> (heap s) ∧
    adapters s' = adapters s ∧
    calls (dbus s') =
      calls (dbus s) ++
      [RegisterObject (ba_dbus_path tr) id; pcm_added IFACE (ba_dbus_path tr)] ∧
    (id = 0 → exported (dbus s') = exported (dbus s)) ∧
    (id ≠ 0 → exported (dbus s') = (id, ba_dbus_path tr) :: exported (dbus s)) ∧
    (GDBus.wf (dbus s) → GDBus.wf (dbus s')).
Proof.
  intros Ht. unfold bluealsa_dbus_register_transport. rewrite Ht. simpl.
  pose proof (register_object_cases (dbus s) (ba_dbus_path tr)) as Hr.
  destruct (g_dbus_connection_register_object (dbus s) (ba_dbus_path tr))
    as [id conn1]. simpl in Hr.
  destruct Hr as (Hid & Hcalls & Hz & Hnz & Hwf).
  exists id. eexists. split; [reflexivity|]. simpl.
  split; [done|]. split; [done|]. split; [done|]. split.
  { rewrite Hcalls, <- app_assoc. reflexivity. }
  split; [by intros [? _]%Hz|]. split; [done|]. done.
Qed.

Lemma unregister_transport_spec s t tr :
  heap s !! t = Some tr →
  ∃ s' new,
    bluealsa_dbus_unregister_transport IFACE s t = Some s' ∧
    heap s' = heap s ∧ adapters s' = adapters s ∧
    calls (dbus s') = calls (dbus s) ++ new ∧
    (ba_dbus_id tr = 0 → s' = s ∧ new = []) ∧
    (ba_dbus_id tr ≠ 0 →
       ∃ found, new = [UnregisterObject (ba_dbus_id tr) found;
                       pcm_removed IFACE (ba_dbus_path tr)]) ∧
    (GDBus.wf (dbus s) → GDBus.wf (dbus s') ∧
                         ∀ p, (ba_dbus_id tr, p) ∉ exported (dbus s')).
Proof.
  intros Ht. unfold bluealsa_dbus_unregister_transport. rewrite Ht. simpl.
  case_bool_decide as Hid.
  - pose proof (unregister_object_cases (dbus s) (ba_dbus_id tr)) as Hu.
    unfold g_dbus_connection_unregister_object in Hu. simpl in Hu.
    destruct Hu as (Hcalls & Hgone & Hwf).
    eexists. eexists [UnregisterObject (ba_dbus_id tr) _;
                      pcm_removed IFACE (ba_dbus_path tr)].
    split; [reflexivity|]. simpl. split; [done|]. split; [done|]. split.
    { rewrite <- app_assoc. reflexivity. }
    split; [done|]. split; [by eexists|]. intros Hw. split; [by apply Hwf|done].
  - assert (ba_dbus_id tr = 0) as Hz by (destruct (decide (ba_dbus_id tr = 0)); tauto).
    exists s, []. split; [done|]. split; [done|]. split; [done|].
    split; [by rewrite app_nil_r|]. split; [done|]. split; [done|].
    intros Hw. split; [done|]. intros p. rewrite Hz. by apply wf_no_zero.
Qed.

End Registration.

(** ** Sequences of operations on one transport *)

Section Lifecycle.

Variable IFACE : string.

Lemma handle_lookup s t tr : heap s !! t = Some tr → handle s t = Some (ba_dbus_id tr).
Proof. intros Ht. unfold handle. by rewrite Ht. Qed.

Lemma step_total s t o :
  GDBus.wf (dbus s) → is_Some (heap s !! t) →
  ∃ s', step IFACE s t o = Some s' ∧ GDBus.wf (dbus s') ∧
        is_Some (heap s' !! t) ∧
        (o = Retract → handle s' t = handle s t).
Proof.
  intros Hwf [tr Ht]. destruct o; simpl.
  - destruct (register_transport_spec IFACE s t tr Ht)
      as (id & s' & Hr & _ & Hh & _ & _ & _ & _ & Hw).
    exists s'. rewrite Hr. simpl. split; [done|]. split; [by apply Hw|].
    split; [|done]. rewrite Hh, lookup_insert_eq. by eexists.
  - destruct (unregister_transport_spec IFACE s t tr Ht)
      as (s' & new & Hu & Hh & _ & _ & _ & _ & Hw).
    exists s'. split; [done|]. split; [by apply Hw|].
    unfold handle. rewrite Hh. split; [by eexists|done].
Qed.

Lemma run_total ops : ∀ s t,
  GDBus.wf (dbus s) → is_Some (heap s !! t) →
  ∃ s', run IFACE s t ops = Some s' ∧ GDBus.wf (dbus s') ∧
        is_Some (heap s' !! t) ∧
        (Forall (λ o, o = Retract) ops → handle s' t = handle s t).
Proof.
  induction ops as [|o ops IH]; intros s t Hwf Hv; simpl.
  - by exists s.
  - destruct (step_total s t o Hwf Hv) as (s1 & Hs & Hwf1 & Hv1 & Hh1).
    rewrite Hs. simpl.
    destruct (IH s1 t Hwf1 Hv1) as (s2 & Hr & Hwf2 & Hv2 & Hh2).
    exists s2. split; [done|]. split; [done|]. split; [done|].
    intros [Ho Hops]%Forall_cons. rewrite Hh2, Hh1; done.
Qed.

Lemma after_register s t :
  GDBus.wf (dbus s) → is_Some (heap s !! t) →
  ∃ r s', bluealsa_dbus_register_transport IFACE s t = Some (r, s') ∧
          (r ≠ 0 ↔ handle s' t ≠ Some 0) ∧
          (handle s' t ≠ Some 0 ↔ bound s' t).
Proof.
  intros Hwf [tr Ht].
  destruct (register_transport_spec IFACE s t tr Ht)
    as (id & s' & Hr & Hid & Hh & _ & _ & Hz & Hnz & Hw).
  exists (to_int id), s'. split; [done|].
  assert (heap s' !! t = Some {| profile := profile tr;
            ba_dbus_path := ba_dbus_path tr; ba_dbus_id := id |}) as Ht'
    by (rewrite Hh; apply lookup_insert_eq).
  rewrite (handle_lookup _ _ _ Ht'). unfold bound. rewrite Ht'. simpl.
  pose proof (to_int_zero id Hid) as Hti.
  destruct (decide (id = 0)) as [->|Hne].
  - split; [split; intros H; exfalso; tauto|].
    split; [done|]. intros Hin. exfalso.
    eapply wf_no_zero; [by apply Hw|exact Hin].
  - split; [split; intros _; [congruence|tauto]|].
    split; [|congruence]. intros _. rewrite (Hnz Hne). left.
Qed.

Lemma after_unregister s t :
  GDBus.wf (dbus s) → is_Some (heap s !! t) →
  ∃ s', bluealsa_dbus_unregister_transport IFACE s t = Some s' ∧
        handle s' t = handle s t ∧ ¬ bound s' t.
Proof.
  intros Hwf [tr Ht].
  destruct (unregister_transport_spec IFACE s t tr Ht)
    as (s' & new & Hu & Hh & _ & _ & _ & _ & Hw).
  exists s'. split; [done|]. unfold handle, bound. rewrite Hh, Ht.
  split; [done|]. by apply Hw.
Qed.

End Lifecycle.

(** C1 (as the code has it): along every sequence of expose and retract
    operations on a live transport, (1) a sequence of retracts alone leaves
    the handle as it was; (2) right after an expose the result is non-zero
    iff the handle is non-zero iff the transport's path is exported under
    the handle; (3) a retract leaves the handle unchanged and nothing is
    then exported under it; (4) a step that takes the handle from zero to
    non-zero is an expose whose bind succeeded. *)
Theorem handle_lifecycle (iface : string) (ops : list op) (s : state) (t : loc) :
  GDBus.wf (dbus s) → is_Some (heap s !! t) →
  ∃ s1, run iface s t ops = Some s1 ∧
    (Forall (λ o, o = Retract) ops → handle s1 t = handle s t) ∧
    (∃ r s2, bluealsa_dbus_register_transport iface s1 t = Some (r, s2) ∧
       (r ≠ 0 ↔ handle s2 t ≠ Some 0) ∧
       (handle s2 t ≠ Some 0 ↔ bound s2 t)) ∧
    (∃ s2, bluealsa_dbus_unregister_transport iface s1 t = Some s2 ∧
       handle s2 t = handle s1 t ∧ ¬ bound s2 t) ∧
    (∀ o s2, step iface s1 t o = Some s2 →
       handle s1 t = Some 0 → handle s2 t ≠ Some 0 →
       o = Expose ∧ bound s2 t ∧
       ∃ r, bluealsa_dbus_register_transport iface s1 t = Some (r, s2) ∧ r ≠ 0).
Proof.
  intros Hwf Hv.
  destruct (run_total iface ops s t Hwf Hv) as (s1 & Hrun & Hwf1 & Hv1 & Hkeep).
  exists s1. split; [done|]. split; [done|].
  split; [by apply after_register|]. split; [by apply after_unregister|].
  intros o s2 Hstep H0 Hnz. destruct o; simpl in Hstep.
  - destruct (after_register iface s1 t Hwf1 Hv1) as (r & s2' & Hr & Hrz & Hb).
    rewrite Hr in Hstep. simpl in Hstep. injection Hstep as <-.
    split; [done|]. split; [by apply Hb|]. exists r. split; [done|]. by apply Hrz.
  - destruct (after_unregister iface s1 t Hwf1 Hv1) as (s2' & Hu & Hh & _).
    rewrite Hu in Hstep. injection Hstep as <-. congruence.
Qed.

(** C1, as stated, fails on the code: after a successful expose followed by
    a retract the handle still holds the registration id 1 although nothing
    is exported any more. *)
Lemma handle_after_retract_counterexample :
  (s' ← run demo_iface demo_state 1%nat [Expose; Retract];
   Some (handle s' 1%nat, exported (dbus s'))) = Some (Some 1, []).
Proof. reflexivity. Qed.

Lemma handle_lifecycle_witness :
  GDBus.wf (dbus demo_state) ∧ is_Some (heap demo_state !! 1%nat) ∧
  ∃ s1, run demo_iface demo_state 1%nat [Expose; Retract; Expose] = Some s1 ∧
    ∃ s2, bluealsa_dbus_unregister_transport demo_iface s1 1%nat = Some s2 ∧
          handle s2 1%nat = handle s1 1%nat ∧ ¬ bound s2 1%nat.
Proof.
  assert (GDBus.wf (dbus demo_state)) as Hwf by constructor.
  assert (is_Some (heap demo_state !! 1%nat)) as Hv by (by eexists).
  split; [exact Hwf|]. split; [exact Hv|].
  destruct (handle_lifecycle demo_iface [Expose; Retract; Expose]
              demo_state 1%nat Hwf Hv) as (s1 & Hrun & _ & _ & Hu & _).
  exists s1. split; [exact Hrun|exact Hu].
Defined.

(** C2 (as the code has it): a retract of a transport whose handle is zero
    changes nothing (no unbind, no signal), and so do two in a row; any one
    retract emits at most one "PCMRemoved" signal, exactly one when the
    handle is non-zero. *)
Theorem retract_noop_on_zero_handle (iface : string) (s : state) (t : loc)
    (tr : ba_transport) :
  heap s !! t = Some tr →
  (ba_dbus_id tr = 0 →
     bluealsa_dbus_unregister_transport iface s t = Some s ∧
     (s1 ← bluealsa_dbus_unregister_transport iface s t;
      bluealsa_dbus_unregister_transport iface s1 t) = Some s) ∧
  ∃ s1 new,
    bluealsa_dbus_unregister_transport iface s t = Some s1 ∧
    calls (dbus s1) = calls (dbus s) ++ new ∧
    (length (signals_named "PCMRemoved" new) ≤ 1)%nat ∧
    (ba_dbus_id tr ≠ 0 →
       signals_named "PCMRemoved" new = [pcm_removed iface (ba_dbus_path tr)]).
Proof.
  intros Ht.
  destruct (unregister_transport_spec iface s t tr Ht)
    as (s1 & new & Hu & _ & _ & Hcalls & Hz & Hnz & _).
  split.
  - intros H0. destruct (Hz H0) as [-> _]. rewrite Hu. simpl. by rewrite Hu.
  - exists s1, new. split; [done|]. split; [done|].
    destruct (decide (ba_dbus_id tr = 0)) as [H0|Hne].
    + destruct (Hz H0) as [_ ->]. simpl. split; [lia|done].
    + destruct (Hnz Hne) as [found ->]. simpl. split; [lia|done].
Qed.

(** C2, as stated, fails on the code: two retracts in a row of an exposed
    transport emit two "PCMRemoved" signals. *)
Lemma retract_twice_counterexample :
  (s1 ← run demo_iface demo_state 1%nat [Expose];
   s2 ← run demo_iface s1 1%nat [Retract; Retract];
   Some (handle s1 1%nat,
         length (signals_named "PCMRemoved" (calls (dbus s2))))) =
  Some (Some 1, 2%nat).
Proof. reflexivity. Qed.

Lemma retract_noop_on_zero_handle_witness :
  heap demo_state !! 2%nat = Some demo_rfcomm ∧
  bluealsa_dbus_unregister_transport demo_iface demo_state 2%nat =
    Some demo_state.
Proof.
  assert (heap demo_state !! 2%nat = Some demo_rfcomm) as Ht by reflexivity.
  split; [exact Ht|].
  destruct (retract_noop_on_zero_handle demo_iface demo_state 2%nat
              demo_rfcomm Ht) as [Hz _].
  apply Hz. reflexivity.
Defined.

(** C3 (as the code has it): every expose of a live transport asks the
    connection to bind the path and then emits exactly one "PCMAdded"
    signal carrying the path, whether or not the bind succeeded; the handle
    is the id the bind returned, the result is zero exactly when that id is
    zero; a failed bind leaves the exported objects as they were, a
    successful one leaves the transport bound. *)
Theorem expose_notifies_after_bind_attempt (iface : string) (s : state)
    (t : loc) (tr : ba_transport) :
  heap s !! t = Some tr →
  ∃ id s',
    bluealsa_dbus_register_transport iface s t = Some (to_int id, s') ∧
    calls (dbus s') =
      calls (dbus s) ++
      [RegisterObject (ba_dbus_path tr) id; pcm_added iface (ba_dbus_path tr)] ∧
    handle s' t = Some id ∧
    (to_int id = 0 ↔ id = 0) ∧
    (id = 0 → exported (dbus s') = exported (dbus s)) ∧
    (id ≠ 0 → bound s' t).
Proof.
  intros Ht.
  destruct (register_transport_spec iface s t tr Ht)
    as (id & s' & Hr & Hid & Hh & _ & Hcalls & Hz & Hnz & _).
  exists id, s'. split; [done|]. split; [done|].
  assert (heap s' !! t = Some {| profile := profile tr;
            ba_dbus_path := ba_dbus_path tr; ba_dbus_id := id |}) as Ht'
    by (rewrite Hh; apply lookup_insert_eq).
  split; [by rewrite (handle_lookup _ _ _ Ht')|].
  split; [by apply to_int_zero|]. split; [done|].
  intros Hne. unfold bound. rewrite Ht'. simpl. rewrite (Hnz Hne). left.
Qed.

(** C3, as stated, fails on the code: a second expose of the same path is
    refused by the connection (result 0, handle 0), and "PCMAdded" is
    emitted all the same. *)
Lemma expose_failed_bind_counterexample :
  (s1 ← run demo_iface demo_state 1%nat [Expose];
   '(r, s2) ← bluealsa_dbus_register_transport demo_iface s1 1%nat;
   Some (r, handle s2 1%nat, drop (length (calls (dbus s1))) (calls (dbus s2)))) =
  Some (0, Some 0,
        [RegisterObject (ba_dbus_path demo_sink) 0;
         pcm_added demo_iface (ba_dbus_path demo_sink)]).
Proof. reflexivity. Qed.

Lemma expose_notifies_after_bind_attempt_witness :
  heap demo_state !! 1%nat = Some demo_sink ∧
  ∃ id s',
    bluealsa_dbus_register_transport demo_iface demo_state 1%nat =
      Some (to_int id, s') ∧
    calls (dbus s') =
      [RegisterObject (ba_dbus_path demo_sink) id;
       pcm_added demo_iface (ba_dbus_path demo_sink)].
Proof.
  assert (heap demo_state !! 1%nat = Some demo_sink) as Ht by reflexivity.
  split; [exact Ht|].
  destruct (expose_notifies_after_bind_attempt demo_iface demo_state 1%nat
              demo_sink Ht) as (id & s' & Hr & Hcalls & _).
  exists id, s'. split; [exact Hr|exact Hcalls].
Defined.

(** C10: a retract of a live transport returns and writes to no transport:
    the store of transports, hence every field of the given one, its handle
    and its path included, is as before, whether or not the handle was
    non-zero on entry; the registry's tables are untouched as well. *)
Theorem retract_writes_no_transport (iface : string) (s : state) (t : loc) :
  is_Some (heap s !! t) →
  ∃ s', bluealsa_dbus_unregister_transport iface s t = Some s' ∧
        heap s' = heap s ∧ heap s' !! t = heap s !! t ∧
        handle s' t = handle s t ∧ adapters s' = adapters s.
Proof.
  intros [tr Ht].
  destruct (unregister_transport_spec iface s t tr Ht)
    as (s' & new & Hu & Hh & Ha & _).
  exists s'. unfold handle. rewrite Hh. done.
Qed.

Lemma retract_writes_no_transport_witness :
  is_Some (heap demo_state !! 1%nat) ∧
  ∃ s', bluealsa_dbus_unregister_transport demo_iface demo_state 1%nat =
          Some s' ∧ heap s' = heap demo_state.
Proof.
  assert (is_Some (heap demo_state !! 1%nat)) as Hv by (by eexists).
  split; [exact Hv|].
  destruct (retract_writes_no_transport demo_iface demo_state 1%nat Hv)
    as (s' & Hu & Hh & _).
  exists s'. split; [exact Hu|exact Hh].
Defined.

(** ** The one-device scenario *)

Lemma indexed_transports_none s idx :
  Forall (λ i, adapters s !! i = None) idx → indexed_transports s idx = [].
Proof.
  induction 1 as [|i idx Hi _ IH]; [done|].
  rewrite indexed_transports_cons. unfold ba_adapter_lookup. by rewrite Hi.
Qed.

Lemma single_adapter_transports max_dev s a addr d :
  (0 < max_dev)%nat →
  adapters s = {[ 0%nat := a ]} → devices a = [(addr, d)] →
  registry_transports max_dev s = (transports d).*2.
Proof.
  intros Hmax Ha Hd. destruct max_dev as [|n]; [lia|].
  unfold registry_transports. simpl seq. rewrite indexed_transports_cons.
  unfold ba_adapter_lookup at 1. rewrite Ha, lookup_singleton_eq.
  rewrite indexed_transports_none.
  - unfold adapter_transports. rewrite Hd. simpl. by rewrite !app_nil_r.
  - apply Forall_forall. intros i Hi%elem_of_seq.
    rewrite Ha. apply lookup_singleton_ne. lia.
Qed.

Lemma sink_and_control_audio rfcomm h (ts : GHashTable string loc)
    k1 l1 k2 l2 t1 t2 :
  ts ≡ₚ [(k1, l1); (k2, l2)] →
  h !! l1 = Some t1 → h !! l2 = Some t2 →
  ¬ control_only rfcomm t1 → control_only rfcomm t2 →
  Forall (λ l, is_Some (h !! l)) ts.*2 ∧ audio_transports rfcomm h ts.*2 = [t1].
Proof.
  intros Hp H1 H2 Hn1 Hc2. symmetry in Hp.
  apply Permutation_length_2_inv in Hp as [-> | ->]; simpl; split;
    try (repeat constructor; by eexists).
  - rewrite (audio_transports_cons _ _ _ _ _ H1), (audio_transports_cons _ _ _ _ _ H2).
    unfold control_only in *. rewrite bool_decide_eq_false_2 by done.
    by rewrite bool_decide_eq_true_2 by done.
  - rewrite (audio_transports_cons _ _ _ _ _ H2), (audio_transports_cons _ _ _ _ _ H1).
    unfold control_only in *. rewrite bool_decide_eq_true_2 by done.
    by rewrite bool_decide_eq_false_2 by done.
Qed.

Lemma single_device_reply max_dev rfcomm s a addr d k1 l1 k2 l2 t1 t2
    sender path interface method :
  (0 < max_dev)%nat →
  adapters s = {[ 0%nat := a ]} → devices a = [(addr, d)] →
  transports d ≡ₚ [(k1, l1); (k2, l2)] →
  heap s !! l1 = Some t1 → heap s !! l2 = Some t2 →
  ¬ control_only rfcomm t1 → control_only rfcomm t2 →
  ∃ r s', bluealsa_manager_method_call max_dev rfcomm s sender path interface
            method = Some (r, s') ∧
          reply_paths r = [ba_dbus_path t1] ∧
          heap s' = heap s ∧ adapters s' = adapters s.
Proof.
  intros Hmax Ha Hd Hp H1 H2 Hn1 Hc2.
  pose proof (single_adapter_transports max_dev s a addr d Hmax Ha Hd) as Hreg.
  destruct (sink_and_control_audio rfcomm (heap s) _ _ _ _ _ _ _ Hp H1 H2 Hn1 Hc2)
    as [Hv Haud].
  rewrite method_call_total by (unfold registry_wf; by rewrite Hreg).
  cbv zeta. do 2 eexists. split; [reflexivity|].
  rewrite reply_paths_entries, Hreg, Haud. done.
Qed.

(** C5: in a registry whose only adapter, index 0, has one device holding
    one audio transport and one control-only transport, the enumeration
    returns exactly one path, the audio transport's; the control-only
    transport can then be exposed, and the enumeration still returns exactly
    that one path. *)
Theorem scenario_enumerates_sink_only (max_dev : nat) (rfcomm : Z)
    (iface : string) (s : state) (a : ba_adapter) (addr : string)
    (d : ba_device) (k1 k2 : string) (l1 l2 : loc) (t1 t2 : ba_transport)
    (sender path interface method : string) :
  (0 < max_dev)%nat →
  adapters s = {[ 0%nat := a ]} → devices a = [(addr, d)] →
  transports d ≡ₚ [(k1, l1); (k2, l2)] → l1 ≠ l2 →
  heap s !! l1 = Some t1 → heap s !! l2 = Some t2 →
  ¬ control_only rfcomm t1 → control_only rfcomm t2 →
  ∃ r1 s1 id s2 r2 s3,
    bluealsa_manager_method_call max_dev rfcomm s sender path interface method
      = Some (r1, s1) ∧
    reply_paths r1 = [ba_dbus_path t1] ∧
    bluealsa_dbus_register_transport iface s1 l2 = Some (id, s2) ∧
    bluealsa_manager_method_call max_dev rfcomm s2 sender path interface method
      = Some (r2, s3) ∧
    reply_paths r2 = [ba_dbus_path t1].
Proof.
  intros Hmax Ha Hd Hp Hne H1 H2 Hn1 Hc2.
  destruct (single_device_reply max_dev rfcomm s a addr d k1 l1 k2 l2 t1 t2
              sender path interface method Hmax Ha Hd Hp H1 H2 Hn1 Hc2)
    as (r1 & s1 & Hcall1 & Hpaths1 & Hh1 & Ha1).
  assert (heap s1 !! l2 = Some t2) as H2' by (by rewrite Hh1).
  destruct (register_transport_spec iface s1 l2 t2 H2')
    as (id & s2 & Hreg & _ & Hh2 & Ha2 & _).
  destruct (single_device_reply max_dev rfcomm s2 a addr d k1 l1 k2 l2 t1
              {| profile := profile t2; ba_dbus_path := ba_dbus_path t2;
                 ba_dbus_id := id |}
              sender path interface method Hmax)
    as (r2 & s3 & Hcall2 & Hpaths2 & _); try done.
  - by rewrite Ha2, Ha1.
  - rewrite Hh2, lookup_insert_ne, Hh1; done.
  - rewrite Hh2. apply lookup_insert_eq.
  - by exists r1, s1, (to_int id), s2, r2, s3.
Qed.

Lemma scenario_enumerates_sink_only_witness :
  ∃ r1 s1 id s2 r2 s3,
    bluealsa_manager_method_call demo_max_dev demo_rfcomm_bit demo_state
      ":1.7" "/org/bluealsa" demo_iface "GetPCMs" = Some (r1, s1) ∧
    reply_paths r1 = [ba_dbus_path demo_sink] ∧
    bluealsa_dbus_register_transport demo_iface s1 2%nat = Some (id, s2) ∧
    bluealsa_manager_method_call demo_max_dev demo_rfcomm_bit s2
      ":1.7" "/org/bluealsa" demo_iface "GetPCMs" = Some (r2, s3) ∧
    reply_paths r2 = [ba_dbus_path demo_sink].
Proof.
  eapply (scenario_enumerates_sink_only demo_max_dev demo_rfcomm_bit
            demo_iface demo_state _ "AA:BB:CC:DD:EE:FF" _ "a2dp" "rfcomm"
            1%nat 2%nat demo_sink demo_rfcomm).
  - unfold demo_max_dev. lia.
  - reflexivity.
  - reflexivity.
  - reflexivity.
  - lia.
  - reflexivity.
  - reflexivity.
  - unfold control_only. vm_compute. tauto.
  - unfold control_only. vm_compute. discriminate.
Defined.

Lemma demo_registry_wf ts :
  ts ≡ₚ [("a2dp", 1%nat); ("rfcomm", 2%nat)] →
  registry_wf demo_max_dev (demo_registry ts).
Proof.
  intros Hp. unfold registry_wf.
  erewrite (single_adapter_transports demo_max_dev (demo_registry ts) _
              "AA:BB:CC:DD:EE:FF" {| transports := ts |});
    [|unfold demo_max_dev; lia|reflexivity|reflexivity].
  simpl. rewrite Hp. repeat constructor; by eexists.
Qed.

Lemma enumerate_excludes_control_only_witness :
  registry_wf demo_max_dev demo_state ∧
  ∃ reply s' ts,
    bluealsa_manager_method_call demo_max_dev demo_rfcomm_bit demo_state
      ":1.7" "/org/bluealsa" demo_iface "GetPCMs" = Some (reply, s') ∧
    reply_paths reply = ba_dbus_path <$> ts ∧
    ∀ t, t ∈ ts → Z.land (profile t) demo_rfcomm_bit = 0.
Proof.
  assert (registry_wf demo_max_dev demo_state) as Hwf
    by (by apply demo_registry_wf).
  split; [exact Hwf|].
  destruct (enumerate_excludes_control_only demo_max_dev demo_rfcomm_bit
              demo_state ":1.7" "/org/bluealsa" demo_iface "GetPCMs")
    as [Htotal Hreply].
  destruct (Htotal Hwf) as [[reply s'] Hcall].
  destruct (Hreply reply s' Hcall) as (ts & _ & Hpaths & _ & Haudio & _).
  exists reply, s', ts. split; [exact Hcall|]. split; [exact Hpaths|exact Haudio].
Defined.

Lemma demo_same_contents : same_contents demo_state demo_state_swapped.
Proof.
  split; [reflexivity|]. intros i. simpl.
  destruct (decide (i = 0%nat)) as [->|Hne].
  - rewrite !lookup_singleton_eq. constructor.
    eexists. split; [reflexivity|]. simpl.
    constructor; [|constructor]. split; [reflexivity|]. simpl. apply perm_swap.
  - rewrite !lookup_singleton_ne by done. constructor.
Qed.

Lemma enumerate_twice_same_paths_witness :
  registry_wf demo_max_dev demo_state ∧
  same_contents demo_state demo_state_swapped ∧
  ∃ r1 s1 r2 s2,
    bluealsa_manager_method_call demo_max_dev demo_rfcomm_bit demo_state
      ":1.7" "/org/bluealsa" demo_iface "GetPCMs" = Some (r1, s1) ∧
    bluealsa_manager_method_call demo_max_dev demo_rfcomm_bit
      demo_state_swapped ":1.9" "/org/bluealsa" demo_iface "GetPCMs"
      = Some (r2, s2) ∧
    ∀ p, p ∈ reply_paths r1 ↔ p ∈ reply_paths r2.
Proof.
  assert (registry_wf demo_max_dev demo_state) as Hwf
    by (by apply demo_registry_wf).
  pose proof demo_same_contents as Hsame.
  split; [exact Hwf|]. split; [exact Hsame|].
  destruct (enumerate_twice_same_paths demo_max_dev demo_rfcomm_bit
              demo_state demo_state_swapped
              ":1.7" "/org/bluealsa" demo_iface "GetPCMs"
              ":1.9" "/org/bluealsa" demo_iface "GetPCMs" Hwf Hsame)
    as (r1 & s1 & r2 & s2 & Hc1 & _ & _ & _ & Hc2 & _ & Hset).
  exists r1, s1, r2, s2. split; [exact Hc1|]. split; [exact Hc2|exact Hset].
Defined.

(** ** Initialisation of the configuration *)

(** C6 (as the code has it): the initialisation checks none of its
    acquisitions and returns zero on every host; the descriptor field holds
    whatever opening the discard sink returned, the failure value -1
    included. *)
Theorem config_init_returns_zero (h : host) (c : ba_config) :
  (bluealsa_config_init h c).1 = 0 ∧
  null_fd (bluealsa_config_init h c).2 = sys_open h "/dev/null" ∧
  (sys_open h "/dev/null" = -1 →
     (bluealsa_config_init h c).1 = 0 ∧
     null_fd (bluealsa_config_init h c).2 = -1).
Proof.
  split; [reflexivity|]. split; [reflexivity|].
  intros Hopen. split; [reflexivity|]. simpl. exact Hopen.
Qed.

(** C6, as stated, fails on the code: on a host where the discard sink
    cannot be opened the initialisation still returns zero. *)
Lemma config_init_counterexample :
  sys_open demo_bare_host "/dev/null" = -1 ∧
  (bluealsa_config_init demo_bare_host config).1 = 0.
Proof. split; reflexivity. Qed.

(** C7: on a host without the group "audio" the initialisation of the
    static configuration succeeds (returns zero) and the group identifier
    keeps the value -1 which omits the change of ownership. *)
Theorem config_init_without_audio_group (h : host) :
  getgrnam h "audio" = None →
  gid_audio config = -1 ∧
  (bluealsa_config_init h config).1 = 0 ∧
  gid_audio (bluealsa_config_init h config).2 = -1.
Proof.
  intros Hgrp. split; [reflexivity|]. split; [reflexivity|].
  simpl. by rewrite Hgrp.
Qed.

Lemma config_init_without_audio_group_witness :
  getgrnam demo_bare_host "audio" = None ∧
  gid_audio (bluealsa_config_init demo_bare_host config).2 = -1.
Proof.
  split; [reflexivity|].
  apply (config_init_without_audio_group demo_bare_host). reflexivity.
Defined.

(** ** Property reads on a transport object *)

(** C8: a property read on a transport object returns NULL and sets the
    error "No such property '<name>'" of the D-Bus error domain, for every
    property name (the empty one and names of members of the manager
    interface included) and whatever the connection, sender, path,
    interface and transport. *)
Theorem get_property_no_such_property (conn : GDBusConnection)
    (sender path interface property : string) (userdata : loc) :
  let r := bluealsa_transport_get_property conn sender path interface
             property userdata in
  r.1 = None ∧
  domain r.2 = G_DBUS_ERROR ∧ code r.2 = G_DBUS_ERROR_INVALID_ARGS ∧
  message r.2 = "No such property '" +:+ property +:+ "'" ∧
  String.prefix "No such property" (message r.2) = true ∧
  message (bluealsa_transport_get_property conn sender path interface
             "" userdata).2 = "No such property ''" ∧
  message (bluealsa_transport_get_property conn sender path interface
             "GetPCMs" userdata).2 = "No such property 'GetPCMs'" ∧
  message (bluealsa_transport_get_property conn sender path interface
             "PCMAdded" userdata).2 = "No such property 'PCMAdded'".
Proof. repeat split; reflexivity. Qed.

(** ** What the enumeration reads *)

Lemma iter_transports_ext rfcomm h h' ts pcms :
  (∀ l, identity <$> h !! l = identity <$> h' !! l) →
  iter_transports rfcomm h ts pcms = iter_transports rfcomm h' ts pcms.
Proof.
  intros Hid. revert pcms. induction ts as [|[k l] ts IH]; intros pcms; [done|].
  simpl. specialize (Hid l).
  destruct (h !! l) as [t|], (h' !! l) as [t'|]; simpl in *; try done.
  injection Hid as Hprof Hpath. rewrite Hprof, Hpath.
  case_bool_decide; apply IH.
Qed.

Lemma iter_devices_ext rfcomm h h' ds pcms :
  (∀ l, identity <$> h !! l = identity <$> h' !! l) →
  iter_devices rfcomm h ds pcms = iter_devices rfcomm h' ds pcms.
Proof.
  intros Hid. revert pcms. induction ds as [|[k d] ds IH]; intros pcms; [done|].
  simpl. rewrite (iter_transports_ext _ h h') by done.
  destruct (iter_transports rfcomm h' (transports d) pcms); simpl; [apply IH|done].
Qed.

Lemma iter_adapters_ext rfcomm s s' idx pcms :
  Forall (λ i, adapters s !! i = adapters s' !! i) idx →
  (∀ l, identity <$> heap s !! l = identity <$> heap s' !! l) →
  iter_adapters rfcomm s idx pcms = iter_adapters rfcomm s' idx pcms.
Proof.
  intros Hidx Hid. revert pcms.
  induction Hidx as [|i idx Hi _ IH]; intros pcms; [done|].
  simpl. unfold ba_adapter_lookup. rewrite Hi.
  destruct (adapters s' !! i) as [a|]; [|apply IH].
  rewrite (iter_devices_ext _ (heap s) (heap s')) by done.
  destruct (iter_devices rfcomm (heap s') (devices a) pcms); simpl; [apply IH|done].
Qed.

Lemma method_call_ext max_dev rfcomm s s' sender path interface method
    sender' path' interface' method' :
  (∀ i, (i < max_dev)%nat → adapters s !! i = adapters s' !! i) →
  (∀ l, identity <$> heap s !! l = identity <$> heap s' !! l) →
  fst <$> bluealsa_manager_method_call max_dev rfcomm s sender path interface
            method =
  fst <$> bluealsa_manager_method_call max_dev rfcomm s' sender' path'
            interface' method'.
Proof.
  intros Ha Hid. unfold bluealsa_manager_method_call.
  rewrite (iter_adapters_ext rfcomm s s').
  - by destruct (iter_adapters rfcomm s' (seq 0 max_dev) []).
  - apply Forall_forall. intros i Hi%elem_of_seq. apply Ha. lia.
  - done.
Qed.

(** X1: the enumeration reads only the profile and the path of a transport:
    two registries with the same adapters whose transports agree on these
    two fields get the same reply (or both none), whatever the handles, so a
    transport is listed whether or not it is exported. *)
Theorem enumerate_ignores_handles (max_dev : nat) (rfcomm : Z) (s s' : state)
    (sender path interface method : string) :
  adapters s = adapters s' →
  (∀ l, identity <$> heap s !! l = identity <$> heap s' !! l) →
  fst <$> bluealsa_manager_method_call max_dev rfcomm s sender path interface
            method =
  fst <$> bluealsa_manager_method_call max_dev rfcomm s' sender path interface
            method.
Proof.
  intros Ha Hid. apply method_call_ext; [|done]. intros i _. by rewrite Ha.
Qed.

Lemma enumerate_ignores_handles_witness :
  fst <$> bluealsa_manager_method_call demo_max_dev demo_rfcomm_bit demo_state
            ":1.7" "/org/bluealsa" demo_iface "GetPCMs" =
  fst <$> bluealsa_manager_method_call demo_max_dev demo_rfcomm_bit
            demo_exposed ":1.7" "/org/bluealsa" demo_iface "GetPCMs".
Proof.
  apply (enumerate_ignores_handles demo_max_dev demo_rfcomm_bit demo_state
           demo_exposed).
  - reflexivity.
  - intros l. simpl.
    destruct (decide (l = 1%nat)) as [->|H1]; [reflexivity|].
    destruct (decide (l = 2%nat)) as [->|H2]; [reflexivity|].
    rewrite !lookup_insert_ne by done. reflexivity.
Defined.

(** X2: only the adapter indexes below HCI_MAX_DEV are looked up: two
    registries with the same transports which agree on these indexes get
    the same reply, whatever they hold at higher indexes. *)
Theorem enumerate_ignores_far_adapters (max_dev : nat) (rfcomm : Z)
    (s s' : state) (sender path interface method : string) :
  heap s = heap s' →
  (∀ i, (i < max_dev)%nat → adapters s !! i = adapters s' !! i) →
  fst <$> bluealsa_manager_method_call max_dev rfcomm s sender path interface
            method =
  fst <$> bluealsa_manager_method_call max_dev rfcomm s' sender path interface
            method.
Proof.
  intros Hh Ha. apply method_call_ext; [done|]. intros l. by rewrite Hh.
Qed.

Lemma enumerate_ignores_far_adapters_witness :
  fst <$> bluealsa_manager_method_call demo_max_dev demo_rfcomm_bit demo_state
            ":1.7" "/org/bluealsa" demo_iface "GetPCMs" =
  fst <$> bluealsa_manager_method_call demo_max_dev demo_rfcomm_bit
            demo_far_adapter ":1.7" "/org/bluealsa" demo_iface "GetPCMs".
Proof.
  apply (enumerate_ignores_far_adapters demo_max_dev demo_rfcomm_bit
           demo_state demo_far_adapter).
  - reflexivity.
  - intros i Hi. unfold demo_max_dev in Hi. simpl.
    rewrite lookup_insert_ne by lia. reflexivity.
Defined.

(** X3: when no adapter exists below HCI_MAX_DEV the enumeration replies
    with the empty array; it dereferences no transport, so this holds
    whatever the store of transports is. *)
Theorem enumerate_empty_registry (max_dev : nat) (rfcomm : Z) (s : state)
    (sender path interface method : string) :
  (∀ i, (i < max_dev)%nat → adapters s !! i = None) →
  fst <$> bluealsa_manager_method_call max_dev rfcomm s sender path interface
            method = Some (GV_tuple [GV_array []]).
Proof.
  intros Hnone.
  assert (indexed_transports s (seq 0 max_dev) = []) as Hreg.
  { apply indexed_transports_none, Forall_forall.
    intros i Hi%elem_of_seq. apply Hnone. lia. }
  rewrite method_call_total by (unfold registry_wf, registry_transports;
                                rewrite Hreg; constructor).
  unfold registry_transports. rewrite Hreg. reflexivity.
Qed.

Lemma enumerate_empty_registry_witness :
  fst <$> bluealsa_manager_method_call demo_max_dev demo_rfcomm_bit demo_twins
            ":1.7" "/org/bluealsa" demo_iface "GetPCMs" =
  Some (GV_tuple [GV_array []]).
Proof.
  apply (enumerate_empty_registry demo_max_dev demo_rfcomm_bit demo_twins).
  intros i _. reflexivity.
Defined.

(** ** Outcomes of one registration or unregistration *)

Lemma filter_all {A} (P : A → Prop) `{∀ x, Decision (P x)} (l : list A) :
  Forall P l → filter P l = l.
Proof.
  induction 1 as [|x l Hx _ IH]; [done|].
  rewrite filter_cons_True by done. by rewrite IH.
Qed.

Lemma NoDup_fmap_filter {A B} (f : A → B) (P : A → Prop)
    `{∀ x, Decision (P x)} (l : list A) :
  NoDup (f <$> l) → NoDup (f <$> filter P l).
Proof.
  induction l as [|x l IH]; [done|]. rewrite fmap_cons, NoDup_cons.
  intros [Hx Hl]. destruct (decide (P x)).
  - rewrite filter_cons_True by done. rewrite fmap_cons, NoDup_cons.
    split; [|by apply IH]. intros (y & Hy & Hin)%list_elem_of_fmap.
    apply list_elem_of_filter in Hin as [_ Hin].
    apply Hx, list_elem_of_fmap. by exists y.
  - rewrite filter_cons_False by done. by apply IH.
Qed.

Section Outcomes.

Variable IFACE : string.

Lemma register_accepted s t tr :
  heap s !! t = Some tr →
  ba_dbus_path tr ∉ (exported (dbus s)).*2 →
  Z.pos (next_id (dbus s)) < 2 ^ 32 →
  let id := Z.pos (next_id (dbus s)) in
  ∃ s', bluealsa_dbus_register_transport IFACE s t = Some (to_int id, s') ∧
        heap s' = <[t := {| profile := profile tr;
                            ba_dbus_path := ba_dbus_path tr;
                            ba_dbus_id := id |}]> (heap s) ∧
        adapters s' = adapters s ∧
        exported (dbus s') = (id, ba_dbus_path tr) :: exported (dbus s) ∧
        next_id (dbus s') = Pos.succ (next_id (dbus s)) ∧
        calls (dbus s') =
          calls (dbus s) ++
          [RegisterObject (ba_dbus_path tr) id;
           pcm_added IFACE (ba_dbus_path tr)].
Proof.
  intros Ht Hfresh Hroom id.
  unfold bluealsa_dbus_register_transport, g_dbus_connection_register_object.
  rewrite Ht. simpl.
  rewrite bool_decide_eq_false_2 by done.
  rewrite bool_decide_eq_false_2 by lia.
  eexists. split; [reflexivity|]. simpl. repeat split.
  by rewrite <- app_assoc.
Qed.

Lemma register_refused s t tr :
  heap s !! t = Some tr →
  (ba_dbus_path tr ∈ (exported (dbus s)).*2) ∨
    (2 ^ 32 ≤ Z.pos (next_id (dbus s)))%Z →
  ∃ s', bluealsa_dbus_register_transport IFACE s t = Some (0, s') ∧
        heap s' = <[t := {| profile := profile tr;
                            ba_dbus_path := ba_dbus_path tr;
                            ba_dbus_id := 0 |}]> (heap s) ∧
        adapters s' = adapters s ∧
        exported (dbus s') = exported (dbus s) ∧
        next_id (dbus s') = next_id (dbus s) ∧
        calls (dbus s') =
          calls (dbus s) ++
          [RegisterObject (ba_dbus_path tr) 0;
           pcm_added IFACE (ba_dbus_path tr)].
Proof.
  intros Ht Hwhy.
  unfold bluealsa_dbus_register_transport, g_dbus_connection_register_object.
  rewrite Ht. simpl.
  destruct (decide (ba_dbus_path tr ∈ (exported (dbus s)).*2)) as [Hin|Hnin].
  - rewrite bool_decide_eq_true_2 by done.
    eexists. split; [reflexivity|]. simpl. repeat split.
    by rewrite <- app_assoc.
  - rewrite bool_decide_eq_false_2 by done.
    rewrite bool_decide_eq_true_2 by (destruct Hwhy; [done|lia]).
    eexists. split; [reflexivity|]. simpl. repeat split.
    by rewrite <- app_assoc.
Qed.

Lemma unregister_exposed s t tr :
  heap s !! t = Some tr → ba_dbus_id tr ≠ 0 →
  ∃ s', bluealsa_dbus_unregister_transport IFACE s t = Some s' ∧
        heap s' = heap s ∧ adapters s' = adapters s ∧
        exported (dbus s') =
          filter (λ e, e.1 ≠ ba_dbus_id tr) (exported (dbus s)) ∧
        next_id (dbus s') = next_id (dbus s) ∧
        calls (dbus s') =
          calls (dbus s) ++
          [UnregisterObject (ba_dbus_id tr)
             (bool_decide (ba_dbus_id tr ∈ (exported (dbus s)).*1));
           pcm_removed IFACE (ba_dbus_path tr)].
Proof.
  intros Ht Hid. unfold bluealsa_dbus_unregister_transport. rewrite Ht. simpl.
  rewrite bool_decide_eq_true_2 by done.
  eexists. split; [reflexivity|]. simpl. repeat split.
  by rewrite <- app_assoc.
Qed.

Lemma unregister_unexposed s t tr :
  heap s !! t = Some tr → ba_dbus_id tr = 0 →
  bluealsa_dbus_unregister_transport IFACE s t = Some s.
Proof.
  intros Ht Hid. unfold bluealsa_dbus_unregister_transport. rewrite Ht. simpl.
  rewrite bool_decide_eq_false_2; [done|]. by intros [].
Qed.

Lemma wf_filter_fresh conn :
  GDBus.wf conn →
  filter (λ e : Z * string, e.1 ≠ Z.pos (next_id conn)) (exported conn) =
  exported conn.
Proof.
  intros Hwf. apply filter_all. eapply Forall_impl; [exact Hwf|].
  simpl. intros e He. lia.
Qed.

End Outcomes.

(** ** How registrations and unregistrations compose *)

Lemma round_trip_state iface s t tr :
  GDBus.wf (dbus s) → heap s !! t = Some tr →
  ba_dbus_path tr ∉ (exported (dbus s)).*2 →
  Z.pos (next_id (dbus s)) < 2 ^ 32 →
  let id := Z.pos (next_id (dbus s)) in
  ∃ s2, run iface s t [Expose; Retract] = Some s2 ∧
        heap s2 = <[t := {| profile := profile tr;
                            ba_dbus_path := ba_dbus_path tr;
                            ba_dbus_id := id |}]> (heap s) ∧
        adapters s2 = adapters s ∧
        exported (dbus s2) = exported (dbus s) ∧
        next_id (dbus s2) = Pos.succ (next_id (dbus s)) ∧
        calls (dbus s2) =
          calls (dbus s) ++
          [RegisterObject (ba_dbus_path tr) id;
           pcm_added iface (ba_dbus_path tr);
           UnregisterObject id true;
           pcm_removed iface (ba_dbus_path tr)].
Proof.
  intros Hwf Ht Hfresh Hroom id.
  destruct (register_accepted iface s t tr Ht Hfresh Hroom)
    as (s1 & Hr & Hh1 & Ha1 & He1 & Hn1 & Hc1).
  assert (heap s1 !! t = Some {| profile := profile tr;
            ba_dbus_path := ba_dbus_path tr; ba_dbus_id := id |}) as Ht1
    by (rewrite Hh1; apply lookup_insert_eq).
  destruct (unregister_exposed iface s1 t _ Ht1)
    as (s2 & Hu & Hh2 & Ha2 & He2 & Hn2 & Hc2); [done|].
  exists s2. simpl. rewrite Hr. simpl. rewrite Hu. simpl in *.
  split; [done|]. split; [by rewrite Hh2|]. split; [by rewrite Ha2|].
  split; [|split; [by rewrite Hn2|]].
  - rewrite He2, He1, filter_cons_False by (simpl; tauto).
    by apply wf_filter_fresh.
  - rewrite Hc2, Hc1, He1, <- app_assoc. simpl.
    rewrite bool_decide_eq_true_2 by left. done.
Qed.

Lemma run_retracts_unexposed iface s t tr n :
  heap s !! t = Some tr → ba_dbus_id tr = 0 →
  run iface s t (replicate n Retract) = Some s.
Proof.
  intros Ht Hid. induction n as [|n IH]; [done|]. simpl.
  by rewrite (unregister_unexposed iface s t tr Ht Hid).
Qed.

(** X4: an expose writes nothing but the handle of the transport it is
    given: the registry's tables and every other transport are as before,
    the transport keeps its profile and its path, and no object exported
    before is unexported. *)
Theorem expose_writes_one_handle (iface : string) (s s' : state) (t : loc)
    (r : Z) :
  bluealsa_dbus_register_transport iface s t = Some (r, s') →
  adapters s' = adapters s ∧
  (∀ l, l ≠ t → heap s' !! l = heap s !! l) ∧
  identity <$> heap s' !! t = identity <$> heap s !! t ∧
  (∀ e, e ∈ exported (dbus s) → e ∈ exported (dbus s')).
Proof.
  intros Hr.
  destruct (heap s !! t) as [tr|] eqn:Ht;
    [|by unfold bluealsa_dbus_register_transport in Hr; rewrite Ht in Hr].
  destruct (register_transport_spec iface s t tr Ht)
    as (id & s1 & Hr1 & _ & Hh & Ha & _ & Hz & Hnz & _).
  rewrite Hr in Hr1. injection Hr1 as _ <-.
  split; [done|]. split; [|split].
  - intros l Hl. rewrite Hh. by apply lookup_insert_ne.
  - by rewrite Hh, lookup_insert_eq.
  - intros e He. destruct (decide (id = 0)) as [H0|Hne].
    + by rewrite (Hz H0).
    + rewrite (Hnz Hne). by right.
Qed.

Lemma expose_writes_one_handle_witness :
  ∃ r s', bluealsa_dbus_register_transport demo_iface demo_state 1%nat =
            Some (r, s') ∧
          heap s' !! 2%nat = heap demo_state !! 2%nat.
Proof.
  exists 1. eexists. split; [reflexivity|].
  eapply (expose_writes_one_handle demo_iface demo_state _ 1%nat 1);
    [reflexivity|lia].
Defined.

(** X5: on a well-formed connection, a successful expose followed by a
    retract leaves the exported objects exactly as they were before the
    expose; the connection saw the bind, "PCMAdded", the unbind (which found
    the object) and "PCMRemoved", in this order, and the handle keeps the
    id of the bind. *)
Theorem expose_retract_round_trip (iface : string) (s : state) (t : loc)
    (tr : ba_transport) :
  GDBus.wf (dbus s) → heap s !! t = Some tr →
  ba_dbus_path tr ∉ (exported (dbus s)).*2 →
  Z.pos (next_id (dbus s)) < 2 ^ 32 →
  ∃ s2, run iface s t [Expose; Retract] = Some s2 ∧
        exported (dbus s2) = exported (dbus s) ∧
        handle s2 t = Some (Z.pos (next_id (dbus s))) ∧
        calls (dbus s2) =
          calls (dbus s) ++
          [RegisterObject (ba_dbus_path tr) (Z.pos (next_id (dbus s)));
           pcm_added iface (ba_dbus_path tr);
           UnregisterObject (Z.pos (next_id (dbus s))) true;
           pcm_removed iface (ba_dbus_path tr)].
Proof.
  intros Hwf Ht Hfresh Hroom.
  destruct (round_trip_state iface s t tr Hwf Ht Hfresh Hroom)
    as (s2 & Hrun & Hh & _ & He & _ & Hc).
  exists s2. split; [done|]. split; [done|]. split; [|done].
  unfold handle. by rewrite Hh, lookup_insert_eq.
Qed.

Lemma expose_retract_round_trip_witness :
  ∃ s2, run demo_iface demo_state 1%nat [Expose; Retract] = Some s2 ∧
        exported (dbus s2) = exported (dbus demo_state).
Proof.
  destruct (expose_retract_round_trip demo_iface demo_state 1%nat demo_sink)
    as (s2 & Hrun & He & _).
  - constructor.
  - reflexivity.
  - simpl. apply not_elem_of_nil.
  - reflexivity.
  - exists s2. split; [exact Hrun|exact He].
Defined.

(** X6: when the connection refuses the bind (the path is already exported,
    or no id is left), an expose followed by a retract emits "PCMAdded" and
    nothing else: the handle is zero, so the retract neither unbinds nor
    emits "PCMRemoved", and the exported objects are unchanged. *)
Theorem refused_expose_then_retract (iface : string) (s : state) (t : loc)
    (tr : ba_transport) :
  heap s !! t = Some tr →
  (ba_dbus_path tr ∈ (exported (dbus s)).*2) ∨
    (2 ^ 32 ≤ Z.pos (next_id (dbus s)))%Z →
  ∃ s2, run iface s t [Expose; Retract] = Some s2 ∧
        handle s2 t = Some 0 ∧
        exported (dbus s2) = exported (dbus s) ∧
        calls (dbus s2) =
          calls (dbus s) ++
          [RegisterObject (ba_dbus_path tr) 0;
           pcm_added iface (ba_dbus_path tr)].
Proof.
  intros Ht Hwhy.
  destruct (register_refused iface s t tr Ht Hwhy)
    as (s1 & Hr & Hh & _ & He & _ & Hc).
  assert (heap s1 !! t = Some {| profile := profile tr;
            ba_dbus_path := ba_dbus_path tr; ba_dbus_id := 0 |}) as Ht1
    by (rewrite Hh; apply lookup_insert_eq).
  exists s1. simpl. rewrite Hr. simpl.
  rewrite (unregister_unexposed iface s1 t _ Ht1) by done.
  split; [done|]. split; [|done]. unfold handle. by rewrite Ht1.
Qed.

Lemma refused_expose_then_retract_witness :
  ∃ s2, run demo_iface demo_exposed 1%nat [Expose; Retract] = Some s2 ∧
        handle s2 1%nat = Some 0 ∧
        exported (dbus s2) = exported (dbus demo_exposed).
Proof.
  destruct (refused_expose_then_retract demo_iface demo_exposed 1%nat
              {| profile := 2; ba_dbus_path := ba_dbus_path demo_sink;
                 ba_dbus_id := 1 |})
    as (s2 & Hrun & Hh & He & _).
  - reflexivity.
  - left. simpl. left.
  - exists s2. split; [exact Hrun|]. split; [exact Hh|exact He].
Defined.

(** X7: a transport can be exposed again after its retract: on a
    well-formed connection with two ids left, expose, retract, expose ends
    with the transport bound under the next id, the exported objects being
    those before the sequence plus this one. *)
Theorem re_expose_after_retract (iface : string) (s : state) (t : loc)
    (tr : ba_transport) :
  GDBus.wf (dbus s) → heap s !! t = Some tr →
  ba_dbus_path tr ∉ (exported (dbus s)).*2 →
  Z.pos (next_id (dbus s)) + 1 < 2 ^ 32 →
  ∃ s3, run iface s t [Expose; Retract; Expose] = Some s3 ∧
        handle s3 t = Some (Z.pos (next_id (dbus s)) + 1) ∧
        bound s3 t ∧
        exported (dbus s3) =
          (Z.pos (next_id (dbus s)) + 1, ba_dbus_path tr) :: exported (dbus s).
Proof.
  intros Hwf Ht Hfresh Hroom.
  destruct (round_trip_state iface s t tr Hwf Ht Hfresh)
    as (s2 & Hrun & Hh2 & _ & He2 & Hn2 & _); [lia|].
  assert (heap s2 !! t = Some {| profile := profile tr;
            ba_dbus_path := ba_dbus_path tr;
            ba_dbus_id := Z.pos (next_id (dbus s)) |}) as Ht2
    by (rewrite Hh2; apply lookup_insert_eq).
  destruct (register_accepted iface s2 t _ Ht2)
    as (s3 & Hr & Hh3 & _ & He3 & _).
  { simpl. by rewrite He2. }
  { rewrite Hn2. lia. }
  simpl in *. rewrite Hn2, Pos2Z.inj_succ in *.
  replace (Z.succ (Z.pos (next_id (dbus s))))
    with (Z.pos (next_id (dbus s)) + 1) in * by lia.
  exists s3. split.
  - destruct (bluealsa_dbus_register_transport iface s t) as [[r1 s1]|];
      simpl in *; [|done].
    destruct (bluealsa_dbus_unregister_transport iface s1 t) as [s2'|];
      simpl in *; [|done].
    injection Hrun as ->. by rewrite Hr.
  - assert (heap s3 !! t = Some {| profile := profile tr;
              ba_dbus_path := ba_dbus_path tr;
              ba_dbus_id := Z.pos (next_id (dbus s)) + 1 |}) as Ht3
      by (rewrite Hh3; apply lookup_insert_eq).
    split; [unfold handle; by rewrite Ht3|].
    split; [|by rewrite He3, He2].
    unfold bound. rewrite Ht3, He3. simpl. left.
Qed.

Lemma re_expose_after_retract_witness :
  ∃ s3, run demo_iface demo_state 1%nat [Expose; Retract; Expose] = Some s3 ∧
        handle s3 1%nat = Some 2 ∧ bound s3 1%nat.
Proof.
  destruct (re_expose_after_retract demo_iface demo_state 1%nat demo_sink)
    as (s3 & Hrun & Hh & Hb & _).
  - constructor.
  - reflexivity.
  - simpl. apply not_elem_of_nil.
  - reflexivity.
  - exists s3. split; [exact Hrun|]. split; [exact Hh|exact Hb].
Defined.

(** X8: exposing a transport twice in a row loses its export: the second
    bind is refused and overwrites the handle with zero while the first
    export stays, so no number of retracts removes it any more. *)
Theorem double_expose_leaks_export (iface : string) (s : state) (t : loc)
    (tr : ba_transport) (n : nat) :
  heap s !! t = Some tr →
  ba_dbus_path tr ∉ (exported (dbus s)).*2 →
  Z.pos (next_id (dbus s)) < 2 ^ 32 →
  ∃ s', run iface s t (Expose :: Expose :: replicate n Retract) = Some s' ∧
        handle s' t = Some 0 ∧
        exported (dbus s') =
          (Z.pos (next_id (dbus s)), ba_dbus_path tr) :: exported (dbus s) ∧
        length (signals_named "PCMRemoved" (calls (dbus s'))) =
          length (signals_named "PCMRemoved" (calls (dbus s))).
Proof.
  intros Ht Hfresh Hroom.
  destruct (register_accepted iface s t tr Ht Hfresh Hroom)
    as (s1 & Hr1 & Hh1 & _ & He1 & _ & Hc1).
  assert (heap s1 !! t = Some {| profile := profile tr;
            ba_dbus_path := ba_dbus_path tr;
            ba_dbus_id := Z.pos (next_id (dbus s)) |}) as Ht1
    by (rewrite Hh1; apply lookup_insert_eq).
  destruct (register_refused iface s1 t _ Ht1)
    as (s2 & Hr2 & Hh2 & _ & He2 & _ & Hc2).
  { left. simpl. rewrite He1. simpl. left. }
  assert (heap s2 !! t = Some {| profile := profile tr;
            ba_dbus_path := ba_dbus_path tr; ba_dbus_id := 0 |}) as Ht2
    by (rewrite Hh2; apply lookup_insert_eq).
  exists s2. split.
  - change (run iface s t (Expose :: Expose :: replicate n Retract))
      with (s1' ← snd <$> bluealsa_dbus_register_transport iface s t;
            s2' ← snd <$> bluealsa_dbus_register_transport iface s1' t;
            run iface s2' t (replicate n Retract)).
    rewrite Hr1. simpl. rewrite Hr2. simpl.
    by apply (run_retracts_unexposed iface s2 t _ n Ht2).
  - split; [unfold handle; by rewrite Ht2|]. split; [by rewrite He2, He1|].
    rewrite Hc2, Hc1. simpl. unfold signals_named.
    rewrite !List.filter_app. simpl. by rewrite !app_nil_r.
Qed.

Lemma double_expose_leaks_export_witness :
  ∃ s', run demo_iface demo_state 1%nat [Expose; Expose; Retract; Retract]
          = Some s' ∧
        handle s' 1%nat = Some 0 ∧
        exported (dbus s') = [(1, ba_dbus_path demo_sink)].
Proof.
  destruct (double_expose_leaks_export demo_iface demo_state 1%nat demo_sink
              2) as (s' & Hrun & Hh & He & _).
  - reflexivity.
  - simpl. apply not_elem_of_nil.
  - reflexivity.
  - exists s'. split; [exact Hrun|]. split; [exact Hh|exact He].
Defined.

(** X9: when two distinct transports resolve to the same path, the expose
    of the second is refused once the first is exported: the first keeps
    its handle and its export, the second gets the handle zero, and
    "PCMAdded" is emitted for the path both times. *)
Theorem same_path_second_expose_refused (iface : string) (s : state)
    (t1 t2 : loc) (tr1 tr2 : ba_transport) :
  t1 ≠ t2 → heap s !! t1 = Some tr1 → heap s !! t2 = Some tr2 →
  ba_dbus_path tr1 = ba_dbus_path tr2 →
  ba_dbus_path tr1 ∉ (exported (dbus s)).*2 →
  Z.pos (next_id (dbus s)) < 2 ^ 32 →
  ∃ s', run_many iface s [(Expose, t1); (Expose, t2)] = Some s' ∧
        handle s' t1 = Some (Z.pos (next_id (dbus s))) ∧
        handle s' t2 = Some 0 ∧
        bound s' t1 ∧ ¬ bound s' t2 ∧
        exported (dbus s') =
          (Z.pos (next_id (dbus s)), ba_dbus_path tr1) :: exported (dbus s) ∧
        calls (dbus s') =
          calls (dbus s) ++
          [RegisterObject (ba_dbus_path tr1) (Z.pos (next_id (dbus s)));
           pcm_added iface (ba_dbus_path tr1);
           RegisterObject (ba_dbus_path tr1) 0;
           pcm_added iface (ba_dbus_path tr1)].
Proof.
  intros Hne Ht1 Ht2 Hpath Hfresh Hroom.
  destruct (register_accepted iface s t1 tr1 Ht1 Hfresh Hroom)
    as (s1 & Hr1 & Hh1 & _ & He1 & _ & Hc1).
  assert (heap s1 !! t2 = Some tr2) as Ht2'
    by (rewrite Hh1, lookup_insert_ne; done).
  destruct (register_refused iface s1 t2 tr2 Ht2')
    as (s2 & Hr2 & Hh2 & _ & He2 & _ & Hc2).
  { left. rewrite He1, <- Hpath. simpl. left. }
  exists s2. simpl. rewrite Hr1. simpl. rewrite Hr2. simpl.
  assert (heap s2 !! t1 = Some {| profile := profile tr1;
            ba_dbus_path := ba_dbus_path tr1;
            ba_dbus_id := Z.pos (next_id (dbus s)) |}) as Hl1.
  { rewrite Hh2, lookup_insert_ne by done. rewrite Hh1. apply lookup_insert_eq. }
  assert (heap s2 !! t2 = Some {| profile := profile tr2;
            ba_dbus_path := ba_dbus_path tr2; ba_dbus_id := 0 |}) as Hl2
    by (rewrite Hh2; apply lookup_insert_eq).
  split; [done|]. unfold handle, bound. rewrite Hl1, Hl2, He2, He1. simpl.
  split; [done|]. split; [done|]. split; [left|]. split.
  - intros [Heq|Hin]%elem_of_cons; [injection Heq; lia|].
    apply Hfresh. rewrite Hpath. apply list_elem_of_fmap.
    by exists (0, ba_dbus_path tr2).
  - split; [done|]. rewrite Hc2, Hc1, <- Hpath, <- app_assoc. done.
Qed.

Lemma same_path_second_expose_refused_witness :
  ∃ s', run_many demo_iface demo_twins [(Expose, 1%nat); (Expose, 3%nat)]
          = Some s' ∧
        handle s' 1%nat = Some 1 ∧ handle s' 3%nat = Some 0.
Proof.
  destruct (same_path_second_expose_refused demo_iface demo_twins 1%nat 3%nat
              demo_sink demo_sink) as (s' & Hrun & H1 & H3 & _).
  - lia.
  - reflexivity.
  - reflexivity.
  - reflexivity.
  - simpl. apply not_elem_of_nil.
  - reflexivity.
  - exists s'. split; [exact Hrun|]. split; [exact H1|exact H3].
Defined.

(** X10: a retract of a transport with a non-zero handle asks the connection
    to unbind the handle and then emits "PCMRemoved" with the transport's
    path, also when the connection had no object under the handle; the
    objects exported under other ids are kept and none is left under the
    handle. *)
Theorem retract_unbinds_then_notifies (iface : string) (s : state) (t : loc)
    (tr : ba_transport) :
  heap s !! t = Some tr → ba_dbus_id tr ≠ 0 →
  ∃ s', bluealsa_dbus_unregister_transport iface s t = Some s' ∧
        calls (dbus s') =
          calls (dbus s) ++
          [UnregisterObject (ba_dbus_id tr)
             (bool_decide (ba_dbus_id tr ∈ (exported (dbus s)).*1));
           pcm_removed iface (ba_dbus_path tr)] ∧
        (∀ e, e ∈ exported (dbus s') ↔
              e ∈ exported (dbus s) ∧ e.1 ≠ ba_dbus_id tr).
Proof.
  intros Ht Hid.
  destruct (unregister_exposed iface s t tr Ht Hid)
    as (s' & Hu & _ & _ & He & _ & Hc).
  exists s'. split; [done|]. split; [done|].
  intros e. rewrite He, list_elem_of_filter. tauto.
Qed.

Lemma retract_unbinds_then_notifies_witness :
  ∃ s', bluealsa_dbus_unregister_transport demo_iface demo_exposed 1%nat
          = Some s' ∧
        calls (dbus s') =
          calls (dbus demo_exposed) ++
          [UnregisterObject 1 true;
           pcm_removed demo_iface (ba_dbus_path demo_sink)].
Proof.
  destruct (retract_unbinds_then_notifies demo_iface demo_exposed 1%nat
              {| profile := 2; ba_dbus_path := ba_dbus_path demo_sink;
                 ba_dbus_id := 1 |}) as (s' & Hu & Hc & _).
  - reflexivity.
  - simpl. lia.
  - exists s'. split; [exact Hu|exact Hc].
Defined.

(** ** Invariants of sequences of operations *)

Lemma step_effect iface s t o s' :
  step iface s t o = Some s' →
  adapters s' = adapters s ∧
  (∀ l, identity <$> heap s' !! l = identity <$> heap s !! l) ∧
  (GDBus.wf (dbus s) → GDBus.wf (dbus s')) ∧
  (NoDup (exported (dbus s)).*2 → NoDup (exported (dbus s')).*2) ∧
  (GDBus.wf (dbus s) → NoDup (exported (dbus s)).*1 →
   NoDup (exported (dbus s')).*1).
Proof.
  intros Hstep.
  destruct (heap s !! t) as [tr|] eqn:Ht; cycle 1.
  { destruct o; simpl in Hstep.
    - unfold bluealsa_dbus_register_transport in Hstep. by rewrite Ht in Hstep.
    - unfold bluealsa_dbus_unregister_transport in Hstep. by rewrite Ht in Hstep. }
  destruct o; simpl in Hstep.
  - assert (∀ l id, identity <$>
              (<[t := {| profile := profile tr;
                         ba_dbus_path := ba_dbus_path tr;
                         ba_dbus_id := id |}]> (heap s)) !! l =
            identity <$> heap s !! l) as Hsame.
    { intros l id. destruct (decide (t = l)) as [<-|Hl].
      - by rewrite lookup_insert_eq, Ht.
      - by rewrite lookup_insert_ne. }
    destruct (register_transport_spec iface s t tr Ht)
      as (id0 & s0 & Hr0 & _ & _ & _ & _ & _ & _ & Hw).
    destruct (decide ((ba_dbus_path tr ∈ (exported (dbus s)).*2) ∨
                      (2 ^ 32 ≤ Z.pos (next_id (dbus s)))%Z)) as [Hwhy|Hok].
    + destruct (register_refused iface s t tr Ht Hwhy)
        as (s1 & Hr & Hh & Ha & He & _ & _).
      rewrite Hr in Hr0. injection Hr0 as _ <-.
      rewrite Hr in Hstep. simpl in Hstep. injection Hstep as <-.
      split; [done|]. split; [intros l; by rewrite Hh|].
      split; [done|]. rewrite He. tauto.
    + destruct (register_accepted iface s t tr Ht)
        as (s1 & Hr & Hh & Ha & He & _ & _); [tauto|lia|].
      rewrite Hr in Hr0. injection Hr0 as _ <-.
      rewrite Hr in Hstep. simpl in Hstep. injection Hstep as <-.
      split; [done|]. split; [intros l; by rewrite Hh|].
      split; [done|]. rewrite He, !fmap_cons, !NoDup_cons. simpl.
      split; [tauto|]. intros Hwf Hnd. split; [|done].
      intros (e & He' & Hin)%list_elem_of_fmap.
      eapply Forall_forall in Hwf; [|exact Hin]. lia.
  - destruct (decide (ba_dbus_id tr = 0)) as [H0|Hne].
    + rewrite (unregister_unexposed iface s t tr Ht H0) in Hstep.
      injection Hstep as <-. tauto.
    + destruct (unregister_exposed iface s t tr Ht Hne)
        as (s1 & Hu & Hh & Ha & He & _ & _).
      destruct (unregister_transport_spec iface s t tr Ht)
        as (s1' & new & Hu' & _ & _ & _ & _ & _ & Hw).
      rewrite Hu in Hu'. injection Hu' as <-.
      rewrite Hu in Hstep. injection Hstep as <-.
      split; [done|]. split; [by rewrite Hh|].
      split; [by intros [? _]%Hw|]. rewrite He.
      split; [apply NoDup_fmap_filter|intros _; apply NoDup_fmap_filter].
Qed.

Lemma run_many_effect iface ops : ∀ s s',
  run_many iface s ops = Some s' →
  adapters s' = adapters s ∧
  (∀ l, identity <$> heap s' !! l = identity <$> heap s !! l) ∧
  (GDBus.wf (dbus s) → NoDup (exported (dbus s)).*1 →
   NoDup (exported (dbus s)).*2 →
   GDBus.wf (dbus s') ∧ NoDup (exported (dbus s')).*1 ∧
   NoDup (exported (dbus s')).*2).
Proof.
  induction ops as [|[o t] ops IH]; intros s s' Hrun; simpl in Hrun.
  - injection Hrun as <-. tauto.
  - destruct (step iface s t o) as [s1|] eqn:Hstep; simpl in Hrun; [|done].
    destruct (step_effect _ _ _ _ _ Hstep) as (Ha1 & Hi1 & Hw1 & Hp1 & Hn1).
    destruct (IH _ _ Hrun) as (Ha2 & Hi2 & Hinv).
    split; [by rewrite Ha2|]. split; [intros l; by rewrite Hi2|].
    intros Hwf Hids Hpaths. apply Hinv; auto.
Qed.

Lemma run_many_total iface ops : ∀ s,
  GDBus.wf (dbus s) → Forall (λ x, is_Some (heap s !! x.2)) ops →
  is_Some (run_many iface s ops).
Proof.
  induction ops as [|[o t] ops IH]; intros s Hwf Hlive; simpl; [by eexists|].
  apply Forall_cons in Hlive as [Ht Hlive]. simpl in Ht.
  destruct (step_total iface s t o Hwf Ht) as (s1 & Hstep & Hwf1 & _).
  rewrite Hstep. simpl. apply IH; [done|].
  destruct (step_effect _ _ _ _ _ Hstep) as (_ & Hi & _).
  eapply Forall_impl; [exact Hlive|]. simpl. intros [o' l] Hl. simpl in *.
  specialize (Hi l). destruct Hl as [x Hx]. rewrite Hx in Hi.
  destruct (heap s1 !! l); [by eexists|done].
Qed.

(** X11: every sequence of exposes and retracts over live transports runs to
    the end and keeps the connection consistent: registration ids stay
    non-zero and below the counter, no id and no path is exported twice;
    the registry's tables, and the profile and path of every transport, are
    as before. *)
Theorem operations_keep_bus_consistent (iface : string) (s : state)
    (ops : list (op * loc)) :
  GDBus.wf (dbus s) →
  NoDup (exported (dbus s)).*1 → NoDup (exported (dbus s)).*2 →
  Forall (λ x, is_Some (heap s !! x.2)) ops →
  ∃ s', run_many iface s ops = Some s' ∧
        GDBus.wf (dbus s') ∧
        NoDup (exported (dbus s')).*1 ∧ NoDup (exported (dbus s')).*2 ∧
        adapters s' = adapters s ∧
        ∀ l, identity <$> heap s' !! l = identity <$> heap s !! l.
Proof.
  intros Hwf Hids Hpaths Hlive.
  destruct (run_many_total iface ops s Hwf Hlive) as [s' Hrun].
  destruct (run_many_effect iface ops s s' Hrun) as (Ha & Hi & Hinv).
  destruct (Hinv Hwf Hids Hpaths) as (Hwf' & Hids' & Hpaths').
  by exists s'.
Qed.

Lemma operations_keep_bus_consistent_witness :
  ∃ s', run_many demo_iface demo_state
          [(Expose, 1%nat); (Expose, 2%nat); (Retract, 1%nat);
           (Expose, 2%nat); (Retract, 2%nat); (Expose, 1%nat)] = Some s' ∧
        NoDup (exported (dbus s')).*2.
Proof.
  destruct (operations_keep_bus_consistent demo_iface demo_state
              [(Expose, 1%nat); (Expose, 2%nat); (Retract, 1%nat);
               (Expose, 2%nat); (Retract, 2%nat); (Expose, 1%nat)])
    as (s' & Hrun & _ & _ & Hpaths & _).
  - constructor.
  - constructor.
  - constructor.
  - repeat constructor; by eexists.
  - exists s'. split; [exact Hrun|exact Hpaths].
Defined.

(** X12: no sequence of exposes and retracts, of whatever transports,
    changes what the enumeration replies. *)
Theorem enumerate_unchanged_by_operations (max_dev : nat) (rfcomm : Z)
    (iface : string) (s s' : state) (ops : list (op * loc))
    (sender path interface method : string) :
  run_many iface s ops = Some s' →
  fst <$> bluealsa_manager_method_call max_dev rfcomm s' sender path interface
            method =
  fst <$> bluealsa_manager_method_call max_dev rfcomm s sender path interface
            method.
Proof.
  intros Hrun. destruct (run_many_effect iface ops s s' Hrun) as (Ha & Hi & _).
  apply method_call_ext; [|done]. intros i _. by rewrite Ha.
Qed.

Lemma enumerate_unchanged_by_operations_witness :
  ∃ s', run_many demo_iface demo_state
          [(Expose, 1%nat); (Expose, 2%nat); (Retract, 1%nat)] = Some s' ∧
        fst <$> bluealsa_manager_method_call demo_max_dev demo_rfcomm_bit s'
                  ":1.7" "/org/bluealsa" demo_iface "GetPCMs" =
        Some (GV_tuple [GV_array [pcm_entry demo_sink]]).
Proof.
  eexists. split; [reflexivity|].
  rewrite (enumerate_unchanged_by_operations demo_max_dev demo_rfcomm_bit
             demo_iface demo_state _
             [(Expose, 1%nat); (Expose, 2%nat); (Retract, 1%nat)]);
    reflexivity.
Defined.

(** ** Counting the signals *)

Lemma signals_named_app name cs1 cs2 :
  signals_named name (cs1 ++ cs2) =
  signals_named name cs1 ++ signals_named name cs2.
Proof. apply List.filter_app. Qed.

Lemma step_signals iface s t o s' :
  step iface s t o = Some s' →
  length (signals_named "PCMAdded" (calls (dbus s'))) =
    (length (signals_named "PCMAdded" (calls (dbus s))) +
     if decide (o = Expose) then 1 else 0)%nat ∧
  (length (signals_named "PCMRemoved" (calls (dbus s'))) ≤
     length (signals_named "PCMRemoved" (calls (dbus s))) +
     if decide (o = Retract) then 1 else 0)%nat.
Proof.
  intros Hstep.
  destruct (heap s !! t) as [tr|] eqn:Ht; cycle 1.
  { destruct o; simpl in Hstep.
    - unfold bluealsa_dbus_register_transport in Hstep. by rewrite Ht in Hstep.
    - unfold bluealsa_dbus_unregister_transport in Hstep. by rewrite Ht in Hstep. }
  destruct o; simpl in Hstep.
  - destruct (register_transport_spec iface s t tr Ht)
      as (id & s1 & Hr & _ & _ & _ & Hc & _).
    rewrite Hr in Hstep. simpl in Hstep. injection Hstep as <-.
    rewrite Hc, !signals_named_app, !length_app. simpl. lia.
  - destruct (unregister_transport_spec iface s t tr Ht)
      as (s1 & new & Hu & _ & _ & Hc & Hz & Hnz & _).
    rewrite Hu in Hstep. injection Hstep as <-.
    rewrite Hc, !signals_named_app, !length_app.
    destruct (decide (ba_dbus_id tr = 0)) as [H0|Hne].
    + destruct (Hz H0) as [_ ->]. simpl. lia.
    + destruct (Hnz Hne) as [found ->]. simpl. lia.
Qed.

(** X13: over every sequence of exposes and retracts the connection gets
    exactly one "PCMAdded" signal per expose, refused binds included, and at
    most one "PCMRemoved" signal per retract. *)
Theorem signals_follow_operations (iface : string) (ops : list (op * loc))
    (s s' : state) :
  run_many iface s ops = Some s' →
  length (signals_named "PCMAdded" (calls (dbus s'))) =
    (length (signals_named "PCMAdded" (calls (dbus s))) +
     count_op Expose ops)%nat ∧
  (length (signals_named "PCMRemoved" (calls (dbus s'))) ≤
     length (signals_named "PCMRemoved" (calls (dbus s))) +
     count_op Retract ops)%nat.
Proof.
  revert s. induction ops as [|[o t] ops IH]; intros s Hrun; simpl in Hrun.
  - injection Hrun as <-. unfold count_op. simpl. lia.
  - destruct (step iface s t o) as [s1|] eqn:Hstep; simpl in Hrun; [|done].
    destruct (step_signals _ _ _ _ _ Hstep) as [Ha1 Hr1].
    destruct (IH _ Hrun) as [Ha2 Hr2].
    unfold count_op in *. rewrite !filter_cons. simpl.
    destruct o; simpl in *; lia.
Qed.

Lemma signals_follow_operations_witness :
  ∃ s', run_many demo_iface demo_state
          [(Expose, 1%nat); (Expose, 1%nat); (Retract, 1%nat)] = Some s' ∧
        length (signals_named "PCMAdded" (calls (dbus s'))) = 2%nat.
Proof.
  eexists. split; [reflexivity|].
  eapply (signals_follow_operations demo_iface
            [(Expose, 1%nat); (Expose, 1%nat); (Retract, 1%nat)] demo_state).
  reflexivity.
Defined.

(** ** The error of a property read names the property *)

Lemma append_quote_inj (p1 p2 : string) : p1 +:+ "'" = p2 +:+ "'" → p1 = p2.
Proof.
  revert p2. induction p1 as [|c p1 IH]; intros [|c2 p2] Heq; simpl in Heq.
  - done.
  - injection Heq as _ Heq. by destruct p2.
  - injection Heq as _ Heq. by destruct p1.
  - injection Heq as -> Heq. f_equal. by apply IH.
Qed.

(** X14: the error message of a property read determines the property
    name: reads of two different names, on whatever objects, never yield
    the same message. *)
Theorem get_property_message_names_property (conn conn' : GDBusConnection)
    (sender path interface property : string)
    (sender' path' interface' property' : string) (userdata userdata' : loc) :
  property ≠ property' →
  message (bluealsa_transport_get_property conn sender path interface
             property userdata).2 ≠
  message (bluealsa_transport_get_property conn' sender' path' interface'
             property' userdata').2.
Proof.
  simpl. intros Hne Heq. injection Heq as Heq. by apply Hne, append_quote_inj.
Qed.

Lemma get_property_message_names_property_witness :
  message (bluealsa_transport_get_property (dbus demo_state)
             ":1.7" "/org/bluealsa/a" "org.bluealsa.PCM1" "" 1%nat).2 ≠
  message (bluealsa_transport_get_property (dbus demo_exposed)
             ":1.9" "/org/bluealsa/b" "org.bluealsa.PCM1" "GetPCMs" 2%nat).2.
Proof.
  apply (get_property_message_names_property
           (dbus demo_state) (dbus demo_exposed)
           ":1.7" "/org/bluealsa/a" "org.bluealsa.PCM1" ""
           ":1.9" "/org/bluealsa/b" "org.bluealsa.PCM1" "GetPCMs" 1%nat 2%nat).
  discriminate.
Defined.
